(** * securetransport: the TLS configuration record and the buffered
      SecureTransport bridge

    A shallow embedding of [src/securetransport/tls.py] (the immutable
    [TLSConfiguration] named tuple) and of [src/securetransport/tlsapi.py]
    (the staging buffers, the engine callbacks, the buffer-shaped wrapper
    [_SecureTransportBuffer] and the socket-shaped wrapper [WrappedSocket]),
    followed by the properties established about them.

    Conventions.
    - [bytes] and [bytearray] values are lists of [byte]; a slice [b[:n]] with
      [n >= 0] is [take n b] and [del b[:n]] leaves [drop n b].
    - A Python value that may be [None] is an [option].
    - A method that mutates [self] takes the object's state and returns it
      next to its result; a result is either a returned value or a raised
      exception.
    - [while True] loops take a fuel argument; running out of fuel is
      reported as [None] together with the state reached so far. *)

From Stdlib Require Import ZArith Lia.
From Stdlib.Strings Require Import Byte.
From stdpp Require Import base list.

Open Scope Z_scope.
Set Warnings "-abstract-large-number".

Definition bytes := list byte.

(* ===================================================================== *)
(** * Part I: tls.py                                                      *)
(* ===================================================================== *)

Inductive CipherSuite :=
| TLS_ECDHE_RSA_WITH_3DES_EDE_CBC_SHA
| TLS_ECDHE_ECDSA_WITH_AES_128_CCM
| TLS_ECDHE_ECDSA_WITH_AES_128_GCM_SHA256.

Inductive NextProtocol :=
| H2 | H2C | HTTP1 | WEBRTC | C_WEBRTC | FTP | STUN | TURN.

Inductive TLSVersion :=
| MINIMUM_SUPPORTED | SSLv2 | SSLv3 | TLSv1 | TLSv1_1 | TLSv1_2 | TLSv1_3
| MAXIMUM_SUPPORTED.

(** An argument of [update]: either the sentinel [_DEFAULT_VALUE] (the
    keyword was not passed) or a supplied Python value. *)
Inductive kwarg (A : Type) :=
| _DEFAULT_VALUE
| Supplied (v : A).
Arguments _DEFAULT_VALUE {A}.
Arguments Supplied {A} v.

(** [if x is None: x = d] *)
Definition default_if_None {A} (x : option A) (d : A) : option A :=
  match x with
  | None => Some d
  | Some v => Some v
  end.

(** [if x is _DEFAULT_VALUE: x = current] *)
Definition keep_if_default {A} (x : kwarg A) (current : A) : A :=
  match x with
  | _DEFAULT_VALUE => current
  | Supplied v => v
  end.

Section Configuration.
(** Types declared elsewhere in tls.py as abstract base classes; only
    references to them are stored. *)
Context {Certificate PrivateKey TrustStore ServerNameCallback : Type}.

(** [DEFAULT_CIPHER_LIST] is used by [__new__] but defined nowhere in the
    sources at hand: it is a parameter here. *)
Variable DEFAULT_CIPHER_LIST : list CipherSuite.

(** [namedtuple('TLSConfiguration', _configuration_fields)]: eight
    positional fields, each holding any Python value, [None] included. *)
Record TLSConfiguration := mkTLSConfiguration {
  validate_certificates : option bool;
  certificate_chain : option (list Certificate * PrivateKey);
  ciphers : option (list CipherSuite);
  inner_protocols : option (list (NextProtocol + bytes));
  lowest_supported_version : option TLSVersion;
  highest_supported_version : option TLSVersion;
  trust_store : option TrustStore;
  sni_callback : option ServerNameCallback
}.

(** [TLSConfiguration.__new__] (tls.py, lines 113-141). Every parameter
    defaults to [None]; five of them are then replaced by a default. *)
Definition __new__
    (validate_certificates : option bool)
    (certificate_chain : option (list Certificate * PrivateKey))
    (ciphers : option (list CipherSuite))
    (inner_protocols : option (list (NextProtocol + bytes)))
    (lowest_supported_version : option TLSVersion)
    (highest_supported_version : option TLSVersion)
    (trust_store : option TrustStore)
    (sni_callback : option ServerNameCallback) : TLSConfiguration :=
  let validate_certificates := default_if_None validate_certificates true in
  let ciphers := default_if_None ciphers DEFAULT_CIPHER_LIST in
  let inner_protocols := default_if_None inner_protocols [] in
  let lowest_supported_version :=
    default_if_None lowest_supported_version TLSv1 in
  let highest_supported_version :=
    default_if_None highest_supported_version MAXIMUM_SUPPORTED in
  mkTLSConfiguration
    validate_certificates certificate_chain ciphers inner_protocols
    lowest_supported_version highest_supported_version trust_store
    sni_callback.

(** [TLSConfiguration()] : the constructor called without arguments. *)
Definition TLSConfiguration_default : TLSConfiguration :=
  __new__ None None None None None None None None.

(** The keyword arguments of one [update] call. *)
Record update_kwargs := mkKwargs {
  kw_validate_certificates : kwarg (option bool);
  kw_certificate_chain : kwarg (option (list Certificate * PrivateKey));
  kw_ciphers : kwarg (option (list CipherSuite));
  kw_inner_protocols : kwarg (option (list (NextProtocol + bytes)));
  kw_lowest_supported_version : kwarg (option TLSVersion);
  kw_highest_supported_version : kwarg (option TLSVersion);
  kw_trust_store : kwarg (option TrustStore);
  kw_sni_callback : kwarg (option ServerNameCallback)
}.

(** [c.update()] : no keyword passed. *)
Definition no_kwargs : update_kwargs :=
  mkKwargs _DEFAULT_VALUE _DEFAULT_VALUE _DEFAULT_VALUE _DEFAULT_VALUE
           _DEFAULT_VALUE _DEFAULT_VALUE _DEFAULT_VALUE _DEFAULT_VALUE.

(** [TLSConfiguration.update] (tls.py, lines 143-183): unsupplied
    arguments are read from [self]; the result is built by
    [self.__class__(...)], that is by [__new__] again. *)
Definition update (self : TLSConfiguration) (kw : update_kwargs)
  : TLSConfiguration :=
  let validate_certificates :=
    keep_if_default (kw_validate_certificates kw) (validate_certificates self) in
  let certificate_chain :=
    keep_if_default (kw_certificate_chain kw) (certificate_chain self) in
  let ciphers := keep_if_default (kw_ciphers kw) (ciphers self) in
  let inner_protocols :=
    keep_if_default (kw_inner_protocols kw) (inner_protocols self) in
  let lowest_supported_version :=
    keep_if_default (kw_lowest_supported_version kw)
                    (lowest_supported_version self) in
  let highest_supported_version :=
    keep_if_default (kw_highest_supported_version kw)
                    (highest_supported_version self) in
  let trust_store := keep_if_default (kw_trust_store kw) (trust_store self) in
  let sni_callback :=
    keep_if_default (kw_sni_callback kw) (sni_callback self) in
  __new__ validate_certificates certificate_chain ciphers inner_protocols
          lowest_supported_version highest_supported_version trust_store
          sni_callback.

(** A configuration that came out of the constructor: the five defaulted
    fields are never [None]. *)
Definition constructed (c : TLSConfiguration) : Prop :=
  is_Some (validate_certificates c) /\ is_Some (ciphers c) /\
  is_Some (inner_protocols c) /\ is_Some (lowest_supported_version c) /\
  is_Some (highest_supported_version c).

(** ** The object store

    Configurations are Python objects: a reference is an index into the
    store, and calling the class allocates a fresh object. Named tuples
    have no mutator, so the store only grows. *)
Definition store := list TLSConfiguration.
Definition ref := nat.

Definition alloc (h : store) (c : TLSConfiguration) : ref * store :=
  (length h, h ++ [c]).

(** [r.update(...)] on the object referenced by [r]. *)
Definition update_obj (h : store) (r : ref) (kw : update_kwargs)
  : option (ref * store) :=
  match h !! r with
  | Some self => Some (alloc h (update self kw))
  | None => None
  end.
End Configuration.

Arguments TLSConfiguration : clear implicits.
Arguments update_kwargs : clear implicits.

(** The keyword of a later call wins over the same keyword of an earlier
    one. *)
Definition later_kwarg {A} (earlier later : kwarg A) : kwarg A :=
  match later with
  | _DEFAULT_VALUE => earlier
  | Supplied v => Supplied v
  end.

(** The keywords of two successive [update] calls, taken together. *)
Definition merge_kwargs {Certificate PrivateKey TrustStore ServerNameCallback}
    (earlier later
       : update_kwargs Certificate PrivateKey TrustStore ServerNameCallback)
  : update_kwargs Certificate PrivateKey TrustStore ServerNameCallback :=
  mkKwargs
    (later_kwarg (kw_validate_certificates earlier)
                 (kw_validate_certificates later))
    (later_kwarg (kw_certificate_chain earlier) (kw_certificate_chain later))
    (later_kwarg (kw_ciphers earlier) (kw_ciphers later))
    (later_kwarg (kw_inner_protocols earlier) (kw_inner_protocols later))
    (later_kwarg (kw_lowest_supported_version earlier)
                 (kw_lowest_supported_version later))
    (later_kwarg (kw_highest_supported_version earlier)
                 (kw_highest_supported_version later))
    (later_kwarg (kw_trust_store earlier) (kw_trust_store later))
    (later_kwarg (kw_sni_callback earlier) (kw_sni_callback later)).

(* ===================================================================== *)
(** * Part II: tlsapi.py                                                  *)
(* ===================================================================== *)

(** ** Exceptions and results *)

(** Errors raised by the operating system's socket calls. *)
Inductive os_error :=
| BlockingIOError        (* non-blocking socket, the call would block *)
| socket_timeout         (* timeout-bound socket, the deadline expired *)
| ConnectionResetError.

Inductive exn :=
| WantReadError                       (* tls.py *)
| WantWriteError                      (* tls.py *)
| WouldBlockError                     (* low_level *)
| SecureTransportError (status : Z)   (* low_level *)
| AssertionError
| OSError (e : os_error).

Inductive result (A : Type) :=
| Return (a : A)
| Raise (e : exn).
Arguments Return {A} a.
Arguments Raise {A} e.

(** [SSLErrors.errSSLWouldBlock] (build.py, the [errSSL...] enumeration). *)
Definition errSSLWouldBlock : Z := -9803.

(** [errSSLClosedGraceful] (build.py, the same enumeration): the peer
    closed the connection with a closure alert. *)
Definition errSSLClosedGraceful : Z := -9805.

(** ** The engine

    SecureTransport is reached only through [SSLHandshake], [SSLRead],
    [SSLWrite] and [SSLClose]; during one such call it moves ciphertext by
    calling back the two I/O functions installed with [set_io_funcs], any
    finite number of times, and finally answers with a status. One engine
    call is therefore a finite tree: a leaf is the answer, a node is a
    callback with the continuation for what the callback returns. *)
Inductive EngineCall (R : Type) : Type :=
| Finish (r : R)
| ReadCallback (to_read : nat) (k : Z * bytes -> EngineCall R)
| WriteCallback (data : bytes) (k : Z * nat -> EngineCall R).
Arguments Finish {R} r.
Arguments ReadCallback {R} to_read k.
Arguments WriteCallback {R} data k.

(** The four engine operations over a session state [E]; each answers with
    an [OSStatus], its output if any, and the next session state. *)
Record SSLSessionContext (E : Type) := mkEngine {
  SSLHandshake : E -> EngineCall (Z * unit * E);
  SSLRead : E -> nat -> EngineCall (Z * bytes * E);
  SSLWrite : E -> bytes -> EngineCall (Z * nat * E);
  SSLClose : E -> EngineCall (Z * unit * E)
}.
Arguments SSLHandshake {E} _ _.
Arguments SSLRead {E} _ _ _.
Arguments SSLWrite {E} _ _ _.
Arguments SSLClose {E} _ _.

(** Modelled from the spec: the methods of [low_level.SSLSessionContext]
    ([handshake], [read], [write], [close]) are imported by tlsapi.py but
    their file is not among the sources. They turn the engine's status into
    the outcome tlsapi.py handles: ordinary success returns, would-block
    raises [WouldBlockError], any other status raises
    [SecureTransportError] carrying the status code, by which the caller
    tells the fatal conditions apart. Graceful closure by the peer has an
    outcome of its own where the spec describes one, on [read]: see
    [st_read] below. *)
Definition check_status {A} (status : Z) (a : A) : result A :=
  if status =? 0 then Return a
  else if status =? errSSLWouldBlock then Raise WouldBlockError
  else Raise (SecureTransportError status).

(** ** _SecureTransportBuffer *)

Module _SecureTransportBuffer.
Section WithEngine.
Context {E : Type}.
Variable engine : SSLSessionContext E.

(** The mutable attributes set by [__init__]. *)
Record t := mk {
  _receive_buffer : bytes;
  _send_buffer : bytes;
  _st_context : E
}.

(** [__init__]: both staging buffers start empty. *)
Definition __init__ (session : E) : t := mk [] [] session.

(** [_read_func(self, _, to_read)] (lines 186-196). The engine passes a
    [size_t] length. *)
Definition _read_func (self : t) (to_read : nat) : (Z * bytes) * t :=
  let rc := 0 in
  let output_data := take to_read (_receive_buffer self) in
  let self := mk (drop to_read (_receive_buffer self))
                 (_send_buffer self) (_st_context self) in
  let rc := if (length output_data <? to_read)%nat
            then errSSLWouldBlock else rc in
  ((rc, output_data), self).

(** [_write_func(self, _, data)] (lines 198-200). *)
Definition _write_func (self : t) (data : bytes) : (Z * nat) * t :=
  let self := mk (_receive_buffer self) (_send_buffer self ++ data)
                 (_st_context self) in
  ((0, length data), self).

(** One engine call executed against [self]: every callback node runs the
    corresponding I/O function on the staging buffers. *)
Fixpoint run_callbacks {R} (call : EngineCall R) (self : t) : R * t :=
  match call with
  | Finish r => (r, self)
  | ReadCallback to_read k =>
      let '(answer, self) := _read_func self to_read in
      run_callbacks (k answer) self
  | WriteCallback data k =>
      let '(answer, self) := _write_func self data in
      run_callbacks (k answer) self
  end.

(** [self._st_context.<op>(...)]: run the engine call, store the session
    state it leaves, and convert its status. *)
Definition st_call {A} (op : E -> EngineCall (Z * A * E)) (self : t)
  : result A * t :=
  let '((status, a, session), self) :=
    run_callbacks (op (_st_context self)) self in
  (check_status status a,
   mk (_receive_buffer self) (_send_buffer self) session).

(** [if self._send_buffer: raise WantWriteError else: raise WantReadError] *)
Definition want_write_or_read (self : t) : exn :=
  match _send_buffer self with
  | [] => WantReadError
  | _ :: _ => WantWriteError
  end.

(** Modelled from the spec: [self._st_context.read(amt)], the [read] of
    [low_level.SSLSessionContext], which is not among the sources. It is
    the engine call converted as above, except that graceful closure by the
    peer is not a fault: the read returns zero bytes, which is how the
    caller tells it from a would-block. *)
Definition st_read (amt : nat) (self : t) : result bytes * t :=
  match st_call (fun s => SSLRead engine s amt) self with
  | (Raise (SecureTransportError status), self) =>
      if status =? errSSLClosedGraceful
      then (Return [], self)
      else (Raise (SecureTransportError status), self)
  | (r, self) => (r, self)
  end.

(** [read(self, amt=None)] (lines 202-207). *)
Definition read (self : t) (amt : option nat) : result bytes * t :=
  match amt with
  | None => (Raise AssertionError, self)
  | Some amt =>
      match st_read amt self with
      | (Raise WouldBlockError, self) => (Raise WantReadError, self)
      | (r, self) => (r, self)
      end
  end.

(** [write(self, buf)] (lines 217-223). *)
Definition write (self : t) (buf : bytes) : result nat * t :=
  match st_call (fun s => SSLWrite engine s buf) self with
  | (Raise WouldBlockError, self) => (Raise WantWriteError, self)
  | (r, self) => (r, self)
  end.

(** [do_handshake(self)] (lines 225-232). *)
Definition do_handshake (self : t) : result unit * t :=
  match st_call (SSLHandshake engine) self with
  | (Raise WouldBlockError, self) => (Raise (want_write_or_read self), self)
  | (r, self) => (r, self)
  end.

(** [shutdown(self)] (lines 248-256). *)
Definition shutdown (self : t) : result unit * t :=
  match st_call (SSLClose engine) self with
  | (Raise WouldBlockError, self) => (Raise (want_write_or_read self), self)
  | (r, self) => (r, self)
  end.

(** [receive_bytes_from_network(self, bytes)] (lines 258-259). *)
Definition receive_bytes_from_network (self : t) (data : bytes) : t :=
  mk (_receive_buffer self ++ data) (_send_buffer self) (_st_context self).

(** [peek_bytes(self, len)] (lines 261-262). *)
Definition peek_bytes (self : t) (len : nat) : bytes :=
  take len (_send_buffer self).

(** [consume_bytes(self, len)] (lines 264-265). *)
Definition consume_bytes (self : t) (len : nat) : t :=
  mk (_receive_buffer self) (drop len (_send_buffer self))
     (_st_context self).

(** [readinto(self, buffer, amt=None)] (lines 209-215). [buffer] is the
    caller's bytearray; it is returned with the content the slice
    assignment [buffer[:len(data)] = data] leaves in it. *)
Definition readinto (self : t) (buffer : bytes) (amt : option nat)
  : result nat * (t * bytes) :=
  let amt :=
    match amt with
    | None => length buffer
    | Some amt => if (length buffer <? amt)%nat then length buffer else amt
    end in
  match read self (Some amt) with
  | (Return data, self) =>
      (Return (length data), (self, data ++ drop (length data) buffer))
  | (Raise e, self) => (Raise e, (self, buffer))
  end.
End WithEngine.
Arguments t : clear implicits.
End _SecureTransportBuffer.

(** ** The underlying socket

    [socket.socket] belongs to the Python library, not to this repository.
    Its behaviour is an oracle: what the n-th [recv] and the n-th [send]
    will do is fixed by two functions, and the state records what has been
    done to the socket so far. A [recv] either delivers bytes (none at end
    of stream) or raises; on a non-blocking socket with no data available
    it raises [BlockingIOError]. A [send] either accepts a number of
    leading bytes, at most the length offered, or raises. *)
Module socket.
Inductive recv_outcome :=
| Delivers (data : bytes)
| RecvRaises (e : os_error).

Inductive send_outcome :=
| Accepts (n : nat)
| SendRaises (e : os_error).

Inductive call :=
| Recv (bufsize : nat)
| Send (data : bytes)
| Close.

Record t := mk {
  timeout : option nat;            (* what [gettimeout()] returns *)
  on_recv : nat -> recv_outcome;   (* oracle, by number of earlier recvs *)
  on_send : nat -> send_outcome;   (* oracle, by number of earlier sends *)
  recv_calls : nat;
  send_calls : nat;
  wire : bytes;                    (* every byte the peer was sent, in order *)
  log : list call;                 (* every call made, oldest first *)
  closed : bool
}.

Definition gettimeout (s : t) : option nat := timeout s.

Definition recv (s : t) (bufsize : nat) : result bytes * t :=
  let s' := mk (timeout s) (on_recv s) (on_send s)
               (S (recv_calls s)) (send_calls s) (wire s)
               (log s ++ [Recv bufsize]) (closed s) in
  match on_recv s (recv_calls s) with
  | Delivers data => (Return (take bufsize data), s')
  | RecvRaises e => (Raise (OSError e), s')
  end.

Definition send (s : t) (data : bytes) : result nat * t :=
  match on_send s (send_calls s) with
  | Accepts n =>
      let sent := (n `min` length data)%nat in
      (Return sent,
       mk (timeout s) (on_recv s) (on_send s)
          (recv_calls s) (S (send_calls s)) (wire s ++ take sent data)
          (log s ++ [Send data]) (closed s))
  | SendRaises e =>
      (Raise (OSError e),
       mk (timeout s) (on_recv s) (on_send s)
          (recv_calls s) (S (send_calls s)) (wire s)
          (log s ++ [Send data]) (closed s))
  end.

Definition close (s : t) : t :=
  mk (timeout s) (on_recv s) (on_send s) (recv_calls s) (send_calls s)
     (wire s) (log s ++ [Close]) true.

(** A socket nothing has been done to yet. *)
Definition fresh (timeout : option nat) (on_recv : nat -> recv_outcome)
    (on_send : nat -> send_outcome) : t :=
  mk timeout on_recv on_send 0 0 [] [] false.
End socket.

(** ** WrappedSocket *)

Module WrappedSocket.
Section WithEngine.
Context {E : Type}.
Variable engine : SSLSessionContext E.

Abbreviation Buffer := (_SecureTransportBuffer.t E).

(** [self.__dict__['_socket']] and [self.__dict__['_buffer']]. *)
Record t := mk {
  _socket : socket.t;
  _buffer : Buffer
}.

(** The three statements that occur at lines 82-84, 108-112 and 149-151:
    [some_data = self._buffer.peek_bytes(8192)],
    [sent = self._socket.send(some_data)],
    [self._buffer.consume_bytes(sent)]. *)
Definition send_some (self : t) : result nat * t :=
  let some_data := _SecureTransportBuffer.peek_bytes (_buffer self) 8192 in
  match socket.send (_socket self) some_data with
  | (Return sent, s) =>
      (Return sent,
       mk s (_SecureTransportBuffer.consume_bytes (_buffer self) sent))
  | (Raise e, s) => (Raise e, mk s (_buffer self))
  end.

(** The [while True] loop of [do_handshake] (lines 61-87). *)
Fixpoint do_handshake_loop (fuel : nat) (blocking done_io : bool) (self : t)
  : option (result unit) * t :=
  match fuel with
  | O => (None, self)
  | S fuel =>
      match _SecureTransportBuffer.do_handshake engine (_buffer self) with
      | (Raise WantReadError, b) =>
          if negb blocking && done_io
          then (Some (Raise WantReadError), mk (_socket self) b)
          else
            match socket.recv (_socket self) 8192 with
            | (Return data, s) =>
                let b :=
                  _SecureTransportBuffer.receive_bytes_from_network b data in
                do_handshake_loop fuel blocking true (mk s b)
            | (Raise e, s) => (Some (Raise e), mk s b)
            end
      | (Raise WantWriteError, b) =>
          if negb blocking && done_io
          then (Some (Raise WantWriteError), mk (_socket self) b)
          else
            match send_some (mk (_socket self) b) with
            | (Return _, self) => do_handshake_loop fuel blocking done_io self
            | (Raise e, self) => (Some (Raise e), self)
            end
      | (Raise e, b) => (Some (Raise e), mk (_socket self) b)
      | (Return _, b) => (Some (Return tt), mk (_socket self) b)
      end
  end.

(** [do_handshake(self)] (lines 54-87). *)
Definition do_handshake (fuel : nat) (self : t) : option (result unit) * t :=
  let blocking :=
    match socket.gettimeout (_socket self) with
    | None => true
    | Some _ => false
    end in
  let done_io := false in
  do_handshake_loop fuel blocking done_io self.

(** The [while True] loop of [unwrap] (lines 107-112). *)
Fixpoint drain (fuel : nat) (self : t) : option (result unit) * t :=
  match fuel with
  | O => (None, self)
  | S fuel =>
      match _SecureTransportBuffer.peek_bytes (_buffer self) 8192 with
      | [] => (Some (Return tt), self)
      | _ :: _ =>
          match send_some self with
          | (Return _, self) => drain fuel self
          | (Raise e, self) => (Some (Raise e), self)
          end
      end
  end.

(** [unwrap(self)] (lines 103-114); the value returned is the raw
    socket. *)
Definition unwrap (fuel : nat) (self : t)
  : option (result socket.t) * t :=
  match _SecureTransportBuffer.shutdown engine (_buffer self) with
  | (Raise e, b) => (Some (Raise e), mk (_socket self) b)
  | (Return _, b) =>
      match drain fuel (mk (_socket self) b) with
      | (Some (Return _), self) => (Some (Return (_socket self)), self)
      | (Some (Raise e), self) => (Some (Raise e), self)
      | (None, self) => (None, self)
      end
  end.

(** [close(self)] (lines 116-121). *)
Definition close (fuel : nat) (self : t) : option (result unit) * t :=
  match unwrap fuel self with
  | (Some (Return _), self) =>
      (Some (Return tt), mk (socket.close (_socket self)) (_buffer self))
  | (Some (Raise e), self) => (Some (Raise e), self)
  | (None, self) => (None, self)
  end.

(** [recv(self, bufsize, flags=0)] (lines 123-133). *)
Definition recv (self : t) (bufsize : nat) : result bytes * t :=
  match _SecureTransportBuffer.read engine (_buffer self) (Some bufsize) with
  | (Raise WantReadError, b) =>
      match socket.recv (_socket self) 8192 with
      | (Return [], s) => (Return [], mk s b)
      | (Return data, s) =>
          let b := _SecureTransportBuffer.receive_bytes_from_network b data in
          let '(r, b) :=
            _SecureTransportBuffer.read engine b (Some bufsize) in
          (r, mk s b)
      | (Raise e, s) => (Raise e, mk s b)
      end
  | (r, b) => (r, mk (_socket self) b)
  end.

(** [send(self, data, flags=0)] (lines 141-152). *)
Definition send (self : t) (data : bytes) : result nat * t :=
  let '(written, b) :=
    match _SecureTransportBuffer.write engine (_buffer self) data with
    | (Raise WantWriteError, b) => (Return 0%nat, b)
    | (r, b) => (r, b)
    end in
  match written with
  | Raise e => (Raise e, mk (_socket self) b)
  | Return written =>
      match send_some (mk (_socket self) b) with
      | (Return _, self) => (Return written, self)
      | (Raise e, self) => (Raise e, self)
      end
  end.

(** [sendall(self, bytes, flags=0)] (lines 154-160): the [while send_buffer]
    loop, [send_buffer] being the part of [bytes] not yet handed over. *)
Fixpoint sendall (fuel : nat) (self : t) (send_buffer : bytes)
  : option (result unit) * t :=
  match fuel with
  | O => (None, self)
  | S fuel =>
      match send_buffer with
      | [] => (Some (Return tt), self)
      | _ :: _ =>
          match send self send_buffer with
          | (Return sent, self) => sendall fuel self (drop sent send_buffer)
          | (Raise e, self) => (Some (Raise e), self)
          end
      end
  end.
End WithEngine.
Arguments t : clear implicits.
End WrappedSocket.

(** ** Use of the ingress staging buffer over time

    The ingress buffer is touched by two parties only: the owner appends
    what arrived from the network, the engine takes bytes through its read
    callback. A history is a finite interleaving of the two. *)
Inductive ingress_op :=
| Append (data : bytes)      (* receive_bytes_from_network(data) *)
| Take (to_read : nat).      (* _read_func(_, to_read) *)

(** All bytes appended by a history, in order. *)
Fixpoint appended (ops : list ingress_op) : bytes :=
  match ops with
  | [] => []
  | Append data :: ops => data ++ appended ops
  | Take _ :: ops => appended ops
  end.

(** Runs a history; the first component collects, in order, the bytes the
    read callback handed to the engine. *)
Fixpoint run_ingress {E} (ops : list ingress_op)
    (self : _SecureTransportBuffer.t E) : bytes * _SecureTransportBuffer.t E :=
  match ops with
  | [] => ([], self)
  | Append data :: ops =>
      run_ingress ops
        (_SecureTransportBuffer.receive_bytes_from_network self data)
  | Take to_read :: ops =>
      let '((_, output_data), self) :=
        _SecureTransportBuffer._read_func self to_read in
      let '(rest, self) := run_ingress ops self in
      (output_data ++ rest, self)
  end.

(** ** A small engine to run the bridge on

    A stand-in for SecureTransport with the same calling pattern: the
    client writes its hello once, then every step needs one whole record of
    [record_size] ciphertext bytes, asked for through the read callback; a
    short read makes the engine keep what it got and answer would-block. *)
Module Demo.
Record session := mkSession {
  hello_sent : bool;
  held : bytes
}.

Definition client_hello : bytes := [x16; x03; x01].
Definition close_notify : bytes := [x15; x00].
Definition record_size : nat := 5.

Definition need_record {A} (s : session) (blocked : A)
    (done : bytes -> Z * A * session) : EngineCall (Z * A * session) :=
  ReadCallback (record_size - length (held s))
    (fun '(rc, data) =>
       let got := held s ++ data in
       if rc =? 0 then Finish (done got)
       else Finish (errSSLWouldBlock, blocked,
                    mkSession (hello_sent s) got)).

Definition handshake (s : session) : EngineCall (Z * unit * session) :=
  if hello_sent s
  then need_record s tt (fun _ => (0, tt, mkSession true []))
  else WriteCallback client_hello
         (fun _ => need_record (mkSession true (held s)) tt
                     (fun _ => (0, tt, mkSession true []))).

Definition read (s : session) (amt : nat) : EngineCall (Z * bytes * session) :=
  need_record s [] (fun got => (0, take amt got, mkSession (hello_sent s) [])).

Definition write (s : session) (buf : bytes) : EngineCall (Z * nat * session) :=
  WriteCallback buf (fun '(rc, n) => Finish (rc, n, s)).

(** Stages the closure alert and is done. *)
Definition close (s : session) : EngineCall (Z * unit * session) :=
  WriteCallback close_notify (fun _ => Finish (0, tt, s)).

(** Stages the closure alert, then waits for the peer's. *)
Definition close_awaiting_peer (s : session)
  : EngineCall (Z * unit * session) :=
  WriteCallback close_notify
    (fun _ => need_record s tt (fun _ => (0, tt, s))).

Definition engine : SSLSessionContext session :=
  mkEngine session handshake read write close.

Definition lingering_engine : SSLSessionContext session :=
  mkEngine session handshake read write close_awaiting_peer.

Definition idle : session := mkSession false [].

(** Socket oracles. *)
Definition no_data : nat -> socket.recv_outcome :=
  fun _ => socket.RecvRaises BlockingIOError.
Definition delivers (data : bytes) : nat -> socket.recv_outcome :=
  fun _ => socket.Delivers data.
Definition accepts (n : nat) : nat -> socket.send_outcome :=
  fun _ => socket.Accepts n.

(** The buffer of a client whose first handshake step staged the hello,
    after one of its three bytes was flushed. *)
Definition hello_partly_flushed : _SecureTransportBuffer.t session :=
  _SecureTransportBuffer.consume_bytes
    (_SecureTransportBuffer.do_handshake engine
       (_SecureTransportBuffer.__init__ idle)).2 1.

(** A client whose hello has been staged and flushed: both staging buffers
    are empty and the engine waits for the server's next record. *)
Definition awaiting_server : _SecureTransportBuffer.t session :=
  _SecureTransportBuffer.__init__ (mkSession true []).

(** A blocking socket on which the next [recv] delivers two bytes. *)
Definition blocking_two_bytes : WrappedSocket.t session :=
  WrappedSocket.mk (socket.fresh None (delivers [x17; x03]) (accepts 8192))
                   awaiting_server.

(** A non-blocking socket with no data available. *)
Definition nonblocking_no_data : WrappedSocket.t session :=
  WrappedSocket.mk (socket.fresh (Some 0%nat) no_data (accepts 8192))
                   awaiting_server.

(** A non-blocking socket on which the next [recv] delivers two bytes. *)
Definition nonblocking_two_bytes : WrappedSocket.t session :=
  WrappedSocket.mk
    (socket.fresh (Some 0%nat) (delivers [x17; x03]) (accepts 8192))
    awaiting_server.

(** Ten bytes queued in egress and a socket that accepts three per call. *)
Definition ten_queued : WrappedSocket.t session :=
  WrappedSocket.mk
    (socket.fresh None no_data (accepts 3))
    (_SecureTransportBuffer.mk []
       [x00; x01; x02; x03; x04; x05; x06; x07; x08; x09]
       (mkSession true [])).


(** An engine whose [SSLWrite] cannot take anything yet. *)
Definition stalled_write (s : session) (buf : bytes)
  : EngineCall (Z * nat * session) :=
  Finish (errSSLWouldBlock, 0%nat, s).

Definition stalled_engine : SSLSessionContext session :=
  mkEngine session handshake read stalled_write close.

(** A blocking socket at end of stream: [recv] delivers no byte. *)
Definition blocking_at_eof : WrappedSocket.t session :=
  WrappedSocket.mk (socket.fresh None (delivers []) (accepts 8192))
                   awaiting_server.

(** A blocking socket with nothing staged, taking four bytes per send. *)
Definition blocking_idle : WrappedSocket.t session :=
  WrappedSocket.mk (socket.fresh None no_data (accepts 4)) awaiting_server.
End Demo.

(** ** Vocabulary of the statements *)

(** The egress buffer holds more bytes after a call than before it. *)
Definition egress_gained {E} (before after : _SecureTransportBuffer.t E) : Prop :=
  (length (_SecureTransportBuffer._send_buffer before)
   < length (_SecureTransportBuffer._send_buffer after))%nat.

Definition is_send (c : socket.call) : Prop :=
  match c with
  | socket.Send _ => True
  | _ => False
  end.


(** Ingress after a call is a suffix of ingress before it, and egress
    after it extends egress before it. *)
Definition staging_extends {E} (before after : _SecureTransportBuffer.t E)
  : Prop :=
  exists taken written : bytes,
    _SecureTransportBuffer._receive_buffer before
      = taken ++ _SecureTransportBuffer._receive_buffer after /\
    _SecureTransportBuffer._send_buffer after
      = _SecureTransportBuffer._send_buffer before ++ written.

(** The ciphertext on its way to the peer: what is on the wire followed by
    what is still staged in egress. *)
Definition outbound {E} (self : WrappedSocket.t E) : bytes :=
  socket.wire (WrappedSocket._socket self)
  ++ _SecureTransportBuffer._send_buffer (WrappedSocket._buffer self).

(** The bytes the [i]-th [recv(8192)] hands to the wrapper: none when it
    raises. *)
Definition delivered (s : socket.t) (i : nat) : bytes :=
  match socket.on_recv s i with
  | socket.Delivers data => take 8192 data
  | socket.RecvRaises _ => []
  end.

(** All bytes received from the socket between two of its states, in
    order of arrival. *)
Definition received_since (before after : socket.t) : bytes :=
  concat (map (delivered before)
              (seq (socket.recv_calls before)
                   (socket.recv_calls after - socket.recv_calls before))).

(** ** An engine that remembers what it read

    The bytes an engine takes from ingress are those its read callback
    returns. To speak of them, any engine is run with a log added to its
    session state: every answer of the read callback is appended to the
    log, and nothing else changes. *)
Fixpoint record {E A} (call : EngineCall (Z * A * E)) (log : bytes)
  : EngineCall (Z * A * (E * bytes)) :=
  match call with
  | Finish r => Finish (r.1, (r.2, log))
  | ReadCallback to_read k =>
      ReadCallback to_read (fun answer => record (k answer) (log ++ answer.2))
  | WriteCallback data k =>
      WriteCallback data (fun answer => record (k answer) log)
  end.

Definition recording {E} (engine : SSLSessionContext E)
  : SSLSessionContext (E * bytes) :=
  mkEngine (E * bytes)
    (fun s => record (SSLHandshake engine s.1) s.2)
    (fun s amt => record (SSLRead engine s.1 amt) s.2)
    (fun s buf => record (SSLWrite engine s.1 buf) s.2)
    (fun s => record (SSLClose engine s.1) s.2).

(** The objects with the log left out. *)
Definition forget_buffer {E} (b : _SecureTransportBuffer.t (E * bytes))
  : _SecureTransportBuffer.t E :=
  _SecureTransportBuffer.mk (_SecureTransportBuffer._receive_buffer b)
                            (_SecureTransportBuffer._send_buffer b)
                            (_SecureTransportBuffer._st_context b).1.

Definition forget {E} (self : WrappedSocket.t (E * bytes)) : WrappedSocket.t E :=
  WrappedSocket.mk (WrappedSocket._socket self)
                   (forget_buffer (WrappedSocket._buffer self)).

(** Every byte the read callback has handed to the engine so far. *)
Definition read_log {E} (self : WrappedSocket.t (E * bytes)) : bytes :=
  (_SecureTransportBuffer._st_context (WrappedSocket._buffer self)).2.

(** Between two states of the wrapper: what was staged in ingress followed
    by what the socket delivered is what the engine read followed by what
    is staged now. *)
Definition inbound_conserved {E} (before after : WrappedSocket.t (E * bytes))
  : Prop :=
  exists taken : bytes,
    read_log after = read_log before ++ taken /\
    _SecureTransportBuffer._receive_buffer (WrappedSocket._buffer before)
    ++ received_since (WrappedSocket._socket before)
                      (WrappedSocket._socket after)
    = taken
      ++ _SecureTransportBuffer._receive_buffer (WrappedSocket._buffer after).

(** The two signalling exceptions of tls.py. *)
Definition would_block_signal (e : exn) : Prop :=
  e = WantReadError \/ e = WantWriteError.

(** A socket whose [send] never raises. *)
Definition send_never_fails (s : socket.t) : Prop :=
  forall i : nat, exists k : nat, socket.on_send s i = socket.Accepts k.

(** Use of the egress staging buffer over time: the engine stages bytes
    through its write callback, the socket wrapper flushes with
    [peek_bytes], [send] and [consume_bytes]. *)
Inductive egress_op :=
| Stage (data : bytes)      (* _write_func(_, data) *)
| Flush.                    (* peek_bytes(8192); send; consume_bytes(sent) *)

(** All bytes staged by a history, in order. *)
Fixpoint staged (ops : list egress_op) : bytes :=
  match ops with
  | [] => []
  | Stage data :: ops => data ++ staged ops
  | Flush :: ops => staged ops
  end.

Fixpoint run_egress {E} (ops : list egress_op) (self : WrappedSocket.t E)
  : WrappedSocket.t E :=
  match ops with
  | [] => self
  | Stage data :: ops =>
      run_egress ops
        (WrappedSocket.mk (WrappedSocket._socket self)
           (_SecureTransportBuffer._write_func (WrappedSocket._buffer self) data).2)
  | Flush :: ops => run_egress ops (WrappedSocket.send_some self).2
  end.


(* ===================================================================== *)
(** * Part III: properties of tls.py                                      *)
(* ===================================================================== *)

Section ConfigurationFacts.
Context {Certificate PrivateKey TrustStore ServerNameCallback : Type}.
Variable DEFAULT_CIPHER_LIST : list CipherSuite.

Abbreviation Config :=
  (TLSConfiguration Certificate PrivateKey TrustStore ServerNameCallback).
Abbreviation Kwargs :=
  (update_kwargs Certificate PrivateKey TrustStore ServerNameCallback).
Abbreviation new := (__new__ DEFAULT_CIPHER_LIST).
Abbreviation upd := (update DEFAULT_CIPHER_LIST).

Lemma default_if_None_is_Some {A} (x : option A) (d : A) :
  is_Some (default_if_None x d).
Proof. destruct x; simpl; eauto. Qed.

Lemma default_if_None_Some {A} (x : option A) (d : A) :
  is_Some x -> default_if_None x d = x.
Proof. intros [v ->]; reflexivity. Qed.

Lemma new_constructed vc cc ci ip lo hi ts sni :
  constructed (new vc cc ci ip lo hi ts sni : Config).
Proof. repeat split; simpl; apply default_if_None_is_Some. Qed.

Lemma update_constructed (c : Config) (kw : Kwargs) : constructed (upd c kw).
Proof. apply new_constructed. Qed.

(** The constructor is the identity on the fields of a configuration it
    built itself. *)
Lemma new_of_constructed (c : Config) :
  constructed c ->
  new (validate_certificates c) (certificate_chain c) (ciphers c)
      (inner_protocols c) (lowest_supported_version c)
      (highest_supported_version c) (trust_store c) (sni_callback c) = c.
Proof.
  intros (Hv & Hc & Hi & Hl & Hh). destruct c; simpl in *.
  unfold __new__. rewrite !default_if_None_Some by assumption. reflexivity.
Qed.

(** C9: a [TLSConfiguration] constructed without arguments validates
    certificates, advertises no inner protocol, and supports the versions
    from [TLSv1] up to [MAXIMUM_SUPPORTED]. (Its cipher list is
    [DEFAULT_CIPHER_LIST]; the remaining three fields stay [None].) *)
Theorem default_configuration :
  let c : Config := TLSConfiguration_default DEFAULT_CIPHER_LIST in
  validate_certificates c = Some true /\
  inner_protocols c = Some [] /\
  lowest_supported_version c = Some TLSv1 /\
  highest_supported_version c = Some MAXIMUM_SUPPORTED /\
  ciphers c = Some DEFAULT_CIPHER_LIST /\
  certificate_chain c = None /\ trust_store c = None /\ sni_callback c = None.
Proof. repeat split. Qed.

(** C8, as amended: for a configuration [c] built by the constructor,
    [c.update(...)] allocates a new configuration and leaves [c] as it
    was. A field that was not supplied keeps the value it has in [c]. A
    supplied field has the supplied value, except that [None] supplied for
    one of the five fields the constructor defaults is stored as that
    default. [c.update()] is equal to [c]. *)
Theorem update_overrides_supplied_fields
    (h : store) (r : ref) (c : Config) (kw : Kwargs) :
  h !! r = Some c ->
  constructed c ->
  let c' := upd c kw in
  (exists r' h', update_obj DEFAULT_CIPHER_LIST h r kw = Some (r', h') /\
     r' <> r /\ h !! r' = None /\ h' !! r' = Some c' /\ h' !! r = Some c) /\
  validate_certificates c' =
    match kw_validate_certificates kw with
    | _DEFAULT_VALUE => validate_certificates c
    | Supplied None => Some true
    | Supplied v => v
    end /\
  certificate_chain c' =
    match kw_certificate_chain kw with
    | _DEFAULT_VALUE => certificate_chain c
    | Supplied v => v
    end /\
  ciphers c' =
    match kw_ciphers kw with
    | _DEFAULT_VALUE => ciphers c
    | Supplied None => Some DEFAULT_CIPHER_LIST
    | Supplied v => v
    end /\
  inner_protocols c' =
    match kw_inner_protocols kw with
    | _DEFAULT_VALUE => inner_protocols c
    | Supplied None => Some []
    | Supplied v => v
    end /\
  lowest_supported_version c' =
    match kw_lowest_supported_version kw with
    | _DEFAULT_VALUE => lowest_supported_version c
    | Supplied None => Some TLSv1
    | Supplied v => v
    end /\
  highest_supported_version c' =
    match kw_highest_supported_version kw with
    | _DEFAULT_VALUE => highest_supported_version c
    | Supplied None => Some MAXIMUM_SUPPORTED
    | Supplied v => v
    end /\
  trust_store c' =
    match kw_trust_store kw with
    | _DEFAULT_VALUE => trust_store c
    | Supplied v => v
    end /\
  sni_callback c' =
    match kw_sni_callback kw with
    | _DEFAULT_VALUE => sni_callback c
    | Supplied v => v
    end /\
  upd c no_kwargs = c.
Proof.
  intros Hr Hc c'. cbv beta delta [store ref] in *.
  assert (Hlt : (r < length h)%nat) by (eapply lookup_lt_Some; eassumption).
  split.
  { exists (length h), (h ++ [c']).
    unfold update_obj, alloc. cbv beta delta [store ref] in *.
    rewrite Hr. repeat split.
    - lia.
    - apply lookup_ge_None. lia.
    - apply list_lookup_middle. reflexivity.
    - rewrite lookup_app_l by assumption. assumption. }
  assert (Hid : upd c no_kwargs = c) by (apply new_of_constructed; assumption).
  destruct Hc as (Hv & Hci & Hi & Hl & Hh).
  destruct c as [vc cc ci ip lo hi ts sni]; simpl in *.
  destruct Hv as [? ->], Hci as [? ->], Hi as [? ->], Hl as [? ->],
           Hh as [? ->].
  destruct kw as [[|[?|]] [|?] [|[?|]] [|[?|]] [|[?|]] [|[?|]] [|?] [|?]];
    simpl; repeat split; assumption.
Qed.

End ConfigurationFacts.

(** C8, as stated, fails: [None] supplied for [validate_certificates] is
    not what the result holds; the constructor that [update] ends with
    turns it into [True], here on a configuration that had validation
    switched off. *)
Lemma update_does_not_store_supplied_None :
  let c : TLSConfiguration unit unit unit unit :=
    __new__ [] (Some false) None None None None None None None in
  let kw : update_kwargs unit unit unit unit :=
    mkKwargs (Supplied None) _DEFAULT_VALUE _DEFAULT_VALUE _DEFAULT_VALUE
             _DEFAULT_VALUE _DEFAULT_VALUE _DEFAULT_VALUE _DEFAULT_VALUE in
  validate_certificates (update [] c kw) = Some true /\
  validate_certificates (update [] c kw) <> None.
Proof. split; [reflexivity | discriminate]. Qed.

Lemma update_overrides_supplied_fields_witness :
  let c : TLSConfiguration unit unit unit unit :=
    __new__ [TLS_ECDHE_ECDSA_WITH_AES_128_CCM]
            (Some false) None None None None None None None in
  let kw : update_kwargs unit unit unit unit :=
    mkKwargs _DEFAULT_VALUE _DEFAULT_VALUE _DEFAULT_VALUE _DEFAULT_VALUE
             (Supplied (Some TLSv1_2)) (Supplied None) _DEFAULT_VALUE
             _DEFAULT_VALUE in
  let c' := update [TLS_ECDHE_ECDSA_WITH_AES_128_CCM] c kw in
  validate_certificates c' = Some false /\
  lowest_supported_version c' = Some TLSv1_2 /\
  highest_supported_version c' = Some MAXIMUM_SUPPORTED.
Proof.
  intros c kw c'.
  assert (Hr : [c] !! 0%nat = Some c) by reflexivity.
  assert (Hc : constructed c)
    by (repeat split; eexists; reflexivity).
  destruct (update_overrides_supplied_fields
              [TLS_ECDHE_ECDSA_WITH_AES_128_CCM] [c] 0%nat c kw Hr Hc)
    as (_ & Hv & _ & _ & _ & Hlo & Hhi & _).
  repeat split; assumption.
Defined.

(* ===================================================================== *)
(** * Part IV: properties of the staging buffers and of the buffer wrapper *)
(* ===================================================================== *)

Section BufferFacts.
Context {E : Type}.
Variable engine : SSLSessionContext E.

Import _SecureTransportBuffer.

Abbreviation Buffer := (_SecureTransportBuffer.t E).

(** C4: on every ingress content and every requested length the read
    callback hands out the leading [min available requested] bytes and
    removes exactly those; its status is would-block exactly when it handed
    out fewer bytes than requested and success otherwise, never another
    code; on empty ingress every request for at least one byte gets
    would-block with zero bytes. Nothing else of the object changes. *)
Theorem read_func_takes_leading_bytes :
  (forall (self : Buffer) (to_read : nat),
     let ingress := _receive_buffer self in
     let '((rc, output_data), self') := _read_func self to_read in
     output_data = take (length ingress `min` to_read) ingress /\
     _receive_buffer self' = drop (length ingress `min` to_read) ingress /\
     output_data ++ _receive_buffer self' = ingress /\
     _send_buffer self' = _send_buffer self /\
     _st_context self' = _st_context self /\
     (rc = errSSLWouldBlock <-> (length output_data < to_read)%nat) /\
     (rc = 0 <-> length output_data = to_read) /\
     (rc = 0 \/ rc = errSSLWouldBlock)) /\
  (forall (egress : bytes) (session : E) (n : nat),
     _read_func (mk [] egress session) (S n) =
       ((errSSLWouldBlock, []), mk [] egress session)).
Proof.
  split.
  - intros self to_read ingress. unfold _read_func. fold ingress.
    assert (Hlen : length (take to_read ingress)
                   = (to_read `min` length ingress)%nat)
      by apply length_take.
    assert (Htake : take (length ingress `min` to_read) ingress
                    = take to_read ingress).
    { destruct (Nat.le_ge_cases (length ingress) to_read) as [H|H].
      - rewrite Nat.min_l by assumption.
        rewrite !take_ge by lia. reflexivity.
      - rewrite Nat.min_r by assumption. reflexivity. }
    assert (Hdrop : drop (length ingress `min` to_read) ingress
                    = drop to_read ingress).
    { destruct (Nat.le_ge_cases (length ingress) to_read) as [H|H].
      - rewrite Nat.min_l by assumption.
        rewrite !drop_ge by lia. reflexivity.
      - rewrite Nat.min_r by assumption. reflexivity. }
    simpl. rewrite Htake, Hdrop, take_drop.
    repeat split; try reflexivity;
      destruct (Nat.ltb_spec (length (take to_read ingress)) to_read);
      unfold errSSLWouldBlock in *; try lia; try discriminate; auto.
  - intros egress session n. reflexivity.
Qed.

(** The same fact in the form the later proofs use. *)
Lemma read_func_eq (self : Buffer) (to_read : nat) :
  _read_func self to_read =
    ((if (length (take to_read (_receive_buffer self)) <? to_read)%nat
      then errSSLWouldBlock else 0,
      take to_read (_receive_buffer self)),
     mk (drop to_read (_receive_buffer self)) (_send_buffer self)
        (_st_context self)).
Proof. reflexivity. Qed.

(** An engine call can only take leading bytes from ingress and append
    bytes to egress; it does not touch the stored session. *)
Lemma run_callbacks_buffers {R} (call : EngineCall R) (self : Buffer) :
  exists (taken written : bytes),
    _receive_buffer self = taken ++ _receive_buffer (run_callbacks call self).2 /\
    _send_buffer (run_callbacks call self).2 = _send_buffer self ++ written /\
    _st_context (run_callbacks call self).2 = _st_context self.
Proof.
  revert self. induction call as [r | to_read k IH | data k IH]; intros self.
  - exists [], []. simpl. rewrite app_nil_r. auto.
  - simpl.
    destruct (IH (if (length (take to_read (_receive_buffer self)) <? to_read)%nat
                  then errSSLWouldBlock else 0,
                  take to_read (_receive_buffer self))
                 (mk (drop to_read (_receive_buffer self)) (_send_buffer self)
                     (_st_context self)))
      as (taken & written & Hin & Hout & Hctx).
    exists (take to_read (_receive_buffer self) ++ taken), written.
    simpl in *. rewrite <- app_assoc, <- Hin, take_drop. auto.
  - simpl.
    destruct (IH (0, length data)
                 (mk (_receive_buffer self) (_send_buffer self ++ data)
                     (_st_context self)))
      as (taken & written & Hin & Hout & Hctx).
    exists taken, (data ++ written).
    simpl in *. rewrite app_assoc. auto.
Qed.

Lemma st_call_buffers {A} (op : E -> EngineCall (Z * A * E)) (self : Buffer) :
  exists (taken written : bytes),
    _receive_buffer self = taken ++ _receive_buffer (st_call op self).2 /\
    _send_buffer (st_call op self).2 = _send_buffer self ++ written.
Proof.
  destruct (run_callbacks_buffers (op (_st_context self)) self)
    as (taken & written & Hin & Hout & _).
  exists taken, written. unfold st_call.
  destruct (run_callbacks (op (_st_context self)) self) as [[[status a] s] b].
  simpl in *. auto.
Qed.

Lemma check_status_cases {A} (status : Z) (a : A) :
  check_status status a = Return a \/
  check_status status a = Raise WouldBlockError \/
  check_status status a = Raise (SecureTransportError status).
Proof.
  unfold check_status. destruct (status =? 0); auto.
  destruct (status =? errSSLWouldBlock); auto.
Qed.

Lemma st_call_cases {A} (op : E -> EngineCall (Z * A * E)) (self : Buffer) :
  (exists a, (st_call op self).1 = Return a) \/
  (st_call op self).1 = Raise WouldBlockError \/
  (exists status, (st_call op self).1 = Raise (SecureTransportError status)).
Proof.
  unfold st_call.
  destruct (run_callbacks (op (_st_context self)) self) as [[[status a] s] b].
  simpl. destruct (check_status_cases status a) as [-> | [-> | ->]]; eauto.
Qed.

(** The low-level [read] leaves the object as the engine call left it, and
    it would block exactly when the engine call does. *)
Lemma st_read_spec (amt : nat) (self : Buffer) :
  (st_read engine amt self).2 = (st_call (fun s => SSLRead engine s amt) self).2 /\
  ((exists data, (st_read engine amt self).1 = Return data) \/
   (st_read engine amt self).1 = Raise WouldBlockError \/
   (exists status,
      (st_read engine amt self).1 = Raise (SecureTransportError status))) /\
  ((st_read engine amt self).1 = Raise WouldBlockError <->
   (st_call (fun s => SSLRead engine s amt) self).1 = Raise WouldBlockError).
Proof.
  unfold st_read.
  destruct (st_call_cases (fun s => SSLRead engine s amt) self)
    as [[a H] | [H | [status H]]];
    destruct (st_call (fun s => SSLRead engine s amt) self) as [r self'];
    simpl in H; subst r.
  - simpl. split; [reflexivity|]. split; [eauto | reflexivity].
  - simpl. split; [reflexivity|]. split; [eauto | reflexivity].
  - destruct (status =? errSSLClosedGraceful); simpl;
      (split; [reflexivity|]); (split; [eauto|]); split; discriminate.
Qed.

(** [read] with a length: the state is that of the engine call, and the
    outcome is a value, [WantReadError] or the engine's fatal status. *)
Lemma read_spec (amt : nat) (self : Buffer) :
  (read engine self (Some amt)).2
  = (st_call (fun s => SSLRead engine s amt) self).2 /\
  ((exists data, (read engine self (Some amt)).1 = Return data) \/
   (read engine self (Some amt)).1 = Raise WantReadError \/
   (exists status,
      (read engine self (Some amt)).1 = Raise (SecureTransportError status))) /\
  ((read engine self (Some amt)).1 = Raise WantReadError <->
   (st_call (fun s => SSLRead engine s amt) self).1 = Raise WouldBlockError).
Proof.
  destruct (st_read_spec amt self) as (Hstate & Hcases & Hwb).
  unfold read. rewrite <- Hstate, <- Hwb. clear Hstate Hwb.
  destruct (st_read engine amt self) as [r self'].
  simpl in *.
  destruct Hcases as [[data ->] | [-> | [status ->]]]; simpl;
    (split; [reflexivity|]); (split; [eauto|]); split;
    try discriminate; auto.
Qed.
End BufferFacts.

Section IngressFacts.
Context {E : Type}.

Import _SecureTransportBuffer.

Lemma run_ingress_app (ops1 ops2 : list ingress_op) (self : t E) :
  run_ingress (ops1 ++ ops2) self =
    let '(r1, self1) := run_ingress ops1 self in
    let '(r2, self2) := run_ingress ops2 self1 in
    (r1 ++ r2, self2).
Proof.
  revert self. induction ops1 as [|[data|to_read] ops1 IH]; intros self; simpl.
  - destruct (run_ingress ops2 self); reflexivity.
  - apply IH.
  - rewrite IH.
    destruct (run_ingress ops1 _) as [r1 self1].
    destruct (run_ingress ops2 self1) as [r2 self2].
    rewrite app_assoc. reflexivity.
Qed.

Lemma appended_app (ops1 ops2 : list ingress_op) :
  appended (ops1 ++ ops2) = appended ops1 ++ appended ops2.
Proof.
  induction ops1 as [|[data|to_read] ops1 IH]; simpl; auto.
  rewrite IH, app_assoc. reflexivity.
Qed.

(** Conservation: at any moment, what the engine was handed followed by
    what is still staged is what was staged at the start followed by what
    was appended since. *)
Lemma run_ingress_conserves (ops : list ingress_op) (self : t E) :
  (run_ingress ops self).1 ++ _receive_buffer (run_ingress ops self).2 =
    _receive_buffer self ++ appended ops.
Proof.
  revert self. induction ops as [|[data|to_read] ops IH]; intros self; simpl.
  - rewrite app_nil_r. reflexivity.
  - rewrite IH. simpl. rewrite app_assoc. reflexivity.
  - specialize (IH (mk (drop to_read (_receive_buffer self))
                       (_send_buffer self) (_st_context self))).
    destruct (run_ingress ops _) as [rest self']. simpl in *.
    rewrite <- app_assoc, IH, app_assoc, take_drop. reflexivity.
Qed.

(** C5: starting from the empty ingress buffer, after any interleaving of
    appends and engine reads the bytes handed to the engine so far are a
    prefix of the bytes appended, in order, the missing suffix being
    exactly what is still staged; one further read asking for at least the
    total appended hands out the rest, so that everything appended has been
    returned, nothing more and in the same order. *)
Theorem ingress_is_fifo (session : E) (ops : list ingress_op) :
  let start := __init__ session in
  (run_ingress ops start).1 `prefix_of` appended ops /\
  (run_ingress ops start).1 ++ _receive_buffer (run_ingress ops start).2
    = appended ops /\
  forall extra : nat,
    let enough := Take (length (appended ops) + extra) in
    (run_ingress (ops ++ [enough]) start).1 = appended ops /\
    _receive_buffer (run_ingress (ops ++ [enough]) start).2 = [].
Proof.
  intros start.
  pose proof (run_ingress_conserves ops start) as Hc. simpl in Hc.
  split; [|split].
  - eexists. symmetry. exact Hc.
  - exact Hc.
  - intros extra enough. rewrite run_ingress_app.
    destruct (run_ingress ops start) as [returned self']. simpl in *.
    assert (Hlen : (length (_receive_buffer self')
                    <= length (appended ops) + extra)%nat).
    { rewrite <- Hc, length_app. lia. }
    rewrite take_ge, drop_ge by assumption.
    rewrite app_nil_r. auto.
Qed.
End IngressFacts.

Section WrapperFacts.
Context {E : Type}.
Variable engine : SSLSessionContext E.

Import _SecureTransportBuffer.

(** C10: [read] called with [amt = None] fails its assertion, whatever the
    state of the object, without touching the buffers or the engine; called
    with an integer it never fails that assertion. *)
Theorem read_requires_a_length (self : t E) :
  read engine self None = (Raise AssertionError, self) /\
  forall amt : nat, (read engine self (Some amt)).1 <> Raise AssertionError.
Proof.
  split; [reflexivity|]. intros amt.
  destruct (read_spec engine amt self) as (_ & Hcases & _).
  destruct Hcases as [[a ->] | [-> | [status ->]]]; discriminate.
Qed.

(** What the two [except WouldBlockError] clauses do, for either method. *)
Lemma would_block_handler (op : E -> EngineCall (Z * unit * E)) (self : t E) :
  (st_call op self).1 = Raise WouldBlockError ->
  match st_call op self with
  | (Raise WouldBlockError, self') => (Raise (want_write_or_read self'), self')
  | (r, self') => (r, self')
  end = (Raise (want_write_or_read (st_call op self).2), (st_call op self).2).
Proof. destruct (st_call op self) as [r self']; simpl. intros ->. reflexivity. Qed.

(** C1, as amended: when the engine's handshake or close would block, the
    buffer wrapper raises [WantWriteError] if and only if the egress buffer
    is non-empty when the engine call ends, and [WantReadError] otherwise.
    The egress buffer at that moment is what it held before the call
    followed by what the call wrote, so bytes left from earlier calls count
    as much as new ones. *)
Theorem would_block_signal_follows_staged_egress
    (op : E -> EngineCall (Z * unit * E)) (method : t E -> result unit * t E)
    (self : t E) :
  (op = SSLHandshake engine /\ method = do_handshake engine) \/
  (op = SSLClose engine /\ method = shutdown engine) ->
  (st_call op self).1 = Raise WouldBlockError ->
  let '(r, self') := method self in
  self' = (st_call op self).2 /\
  (r = Raise WantWriteError <-> _send_buffer self' <> []) /\
  (r = Raise WantReadError <-> _send_buffer self' = []) /\
  exists written : bytes,
    _send_buffer self' = _send_buffer self ++ written /\
    (r = Raise WantWriteError <-> _send_buffer self <> [] \/ written <> []).
Proof.
  intros Hm Hwb.
  assert (Heq : method self =
                (Raise (want_write_or_read (st_call op self).2),
                 (st_call op self).2)).
  { destruct Hm as [[-> ->] | [-> ->]];
      [unfold do_handshake | unfold shutdown];
      apply would_block_handler; assumption. }
  rewrite Heq.
  destruct (st_call_buffers op self) as (taken & written & _ & Hout).
  split; [reflexivity|].
  unfold want_write_or_read.
  destruct (_send_buffer (st_call op self).2) as [|x l] eqn:Hsb.
  - repeat split; try discriminate; try congruence.
    exists written. split; [assumption|].
    symmetry in Hout. apply app_eq_nil in Hout as [-> ->].
    split; [discriminate | intros [H|H]; congruence].
  - repeat split; try discriminate; try congruence.
    exists written. split; [assumption|].
    split; [|reflexivity]. intros _.
    destruct (_send_buffer self); [right|left]; [|discriminate].
    intros ->. discriminate.
Qed.
End WrapperFacts.

(** C1, as stated, fails. A client staged its hello in a first handshake
    step and one byte of it was flushed. The next handshake step writes
    nothing and would block waiting for the server: the egress buffer gains
    no byte during that call, yet the call raises [WantWriteError], because
    two bytes of the hello are still staged. *)
Lemma leftover_egress_raises_WantWriteError :
  let self := Demo.hello_partly_flushed in
  let r := (_SecureTransportBuffer.do_handshake Demo.engine self).1 in
  let self' := (_SecureTransportBuffer.do_handshake Demo.engine self).2 in
  (_SecureTransportBuffer.st_call (SSLHandshake Demo.engine) self).1
    = Raise WouldBlockError /\
  _SecureTransportBuffer._send_buffer self'
    = _SecureTransportBuffer._send_buffer self /\
  r = Raise WantWriteError /\
  ~ (r = Raise WantWriteError <-> egress_gained self self').
Proof.
  repeat split; try reflexivity.
  intros [H _]. specialize (H eq_refl). vm_compute in H. lia.
Qed.

Lemma would_block_signal_follows_staged_egress_witness :
  let self := _SecureTransportBuffer.__init__ Demo.idle in
  (_SecureTransportBuffer.st_call (SSLHandshake Demo.engine) self).1
    = Raise WouldBlockError /\
  (_SecureTransportBuffer.do_handshake Demo.engine self).1
    = Raise WantWriteError /\
  _SecureTransportBuffer._send_buffer
    (_SecureTransportBuffer.do_handshake Demo.engine self).2
    = Demo.client_hello.
Proof.
  intros self.
  assert (Hwb : (_SecureTransportBuffer.st_call (SSLHandshake Demo.engine) self).1
                = Raise WouldBlockError) by reflexivity.
  pose proof (would_block_signal_follows_staged_egress Demo.engine
                (SSLHandshake Demo.engine)
                (_SecureTransportBuffer.do_handshake Demo.engine) self
                (or_introl (conj eq_refl eq_refl)) Hwb) as H.
  destruct (_SecureTransportBuffer.do_handshake Demo.engine self)
    as [r self'] eqn:Hrun.
  destruct H as (Hself & Hww & _ & _).
  split; [exact Hwb|]. split.
  - apply Hww. rewrite Hself. discriminate.
  - rewrite Hself. reflexivity.
Defined.

(* ===================================================================== *)
(** * Part V: properties of the socket-shaped wrapper                     *)
(* ===================================================================== *)

Lemma take_of_peek (chunk sent : nat) (l : bytes) :
  (sent <= length (take chunk l))%nat -> take sent (take chunk l) = take sent l.
Proof.
  intros H. rewrite take_take. f_equal. rewrite length_take in H. lia.
Qed.



Section FlushFacts.
Context {E : Type}.

Import _SecureTransportBuffer WrappedSocket.

(** What one flush step does when the socket's [send] returns. *)
Lemma send_some_returns (self self' : WrappedSocket.t E) (k : nat) :
  send_some self = (Return k, self') ->
  let s := _socket self in
  exists n : nat,
    socket.on_send s (socket.send_calls s) = socket.Accepts n /\
    k = (n `min` length (peek_bytes (_buffer self) 8192))%nat /\
    self' =
      WrappedSocket.mk
        (socket.mk (socket.timeout s) (socket.on_recv s) (socket.on_send s)
           (socket.recv_calls s) (S (socket.send_calls s))
           (socket.wire s ++ take k (_send_buffer (_buffer self)))
           (socket.log s ++ [socket.Send (peek_bytes (_buffer self) 8192)])
           (socket.closed s))
        (consume_bytes (_buffer self) k).
Proof.
  intros H. cbv zeta. unfold send_some, socket.send in H.
  set (s := _socket self) in *.
  destruct (socket.on_send s (socket.send_calls s)) as [n|e] eqn:Hon;
    [|discriminate].
  exists n. split; [reflexivity|].
  injection H as <- <-. split; [reflexivity|].
  unfold peek_bytes. rewrite take_of_peek by lia. reflexivity.
Qed.

(** C6: when the socket's [send] confirms [k] of the bytes offered, one
    flush step removes exactly the first [k] bytes from egress; the other
    [n - k] bytes stay, unchanged and in order, at the head of egress for
    the next flush; the bytes that reached the wire are exactly those
    removed, so that the wire followed by egress is the same byte sequence
    before and after: nothing is dropped unsent and nothing is sent
    twice. *)
Theorem partial_send_keeps_the_unsent_bytes
    (self self' : WrappedSocket.t E) (k : nat) :
  send_some self = (Return k, self') ->
  let egress := _send_buffer (_buffer self) in
  let egress' := _send_buffer (_buffer self') in
  (k <= length egress)%nat /\
  egress' = drop k egress /\
  length egress' = (length egress - k)%nat /\
  socket.wire (_socket self') = socket.wire (_socket self) ++ take k egress /\
  socket.wire (_socket self') ++ egress' = socket.wire (_socket self) ++ egress /\
  peek_bytes (_buffer self') 8192 = take 8192 (drop k egress) /\
  _receive_buffer (_buffer self') = _receive_buffer (_buffer self).
Proof.
  intros H egress egress'.
  destruct (send_some_returns self self' k H) as (n & _ & Hk & ->).
  subst egress egress'. simpl.
  assert (Hle : (k <= length (_send_buffer (_buffer self)))%nat).
  { rewrite Hk. unfold peek_bytes. rewrite length_take. lia. }
  repeat split; try reflexivity; try assumption.
  - apply length_drop.
  - rewrite <- app_assoc, take_drop. reflexivity.
Qed.
End FlushFacts.

(** The scenario of the specification: ten bytes queued, the socket takes
    three; the seven others stay queued in order. *)
Lemma partial_send_keeps_the_unsent_bytes_witness :
  let self' := (WrappedSocket.send_some Demo.ten_queued).2 in
  (WrappedSocket.send_some Demo.ten_queued).1 = Return 3%nat /\
  _SecureTransportBuffer._send_buffer (WrappedSocket._buffer self')
    = [x03; x04; x05; x06; x07; x08; x09] /\
  socket.wire (WrappedSocket._socket self') = [x00; x01; x02].
Proof.
  intros self'.
  assert (Hrun : WrappedSocket.send_some Demo.ten_queued = (Return 3%nat, self'))
    by (vm_compute; reflexivity).
  destruct (partial_send_keeps_the_unsent_bytes Demo.ten_queued self' 3 Hrun)
    as (_ & Hegress & _ & Hwire & _).
  split; [rewrite Hrun; reflexivity|].
  split; [rewrite Hegress | rewrite Hwire]; reflexivity.
Defined.

Section HandshakeFacts.
Context {E : Type}.
Variable engine : SSLSessionContext E.

Import WrappedSocket.
Abbreviation buffer_do_handshake := (_SecureTransportBuffer.do_handshake engine).
Abbreviation receive := _SecureTransportBuffer.receive_bytes_from_network.

(** The buffer wrapper's [do_handshake] returns, raises one of the two
    would-block signals, or raises the engine's fatal status. *)
Lemma buffer_do_handshake_cases (b : _SecureTransportBuffer.t E) :
  (buffer_do_handshake b).1 = Return tt \/
  (buffer_do_handshake b).1 = Raise WantReadError \/
  (buffer_do_handshake b).1 = Raise WantWriteError \/
  exists status, (buffer_do_handshake b).1 = Raise (SecureTransportError status).
Proof.
  unfold _SecureTransportBuffer.do_handshake.
  pose proof (st_call_cases (SSLHandshake engine) b) as Hc.
  destruct (_SecureTransportBuffer.st_call (SSLHandshake engine) b) as [r b'].
  simpl in Hc. destruct Hc as [[[] ->] | [-> | [status ->]]]; simpl; eauto.
  unfold _SecureTransportBuffer.want_write_or_read.
  destruct (_SecureTransportBuffer._send_buffer b'); auto.
Qed.

Lemma socket_recv_cases (s : socket.t) (bufsize : nat) :
  (exists data, socket.recv s bufsize =
     (Return data,
      socket.mk (socket.timeout s) (socket.on_recv s) (socket.on_send s)
        (S (socket.recv_calls s)) (socket.send_calls s) (socket.wire s)
        (socket.log s ++ [socket.Recv bufsize]) (socket.closed s))) \/
  (exists e, socket.recv s bufsize =
     (Raise (OSError e),
      socket.mk (socket.timeout s) (socket.on_recv s) (socket.on_send s)
        (S (socket.recv_calls s)) (socket.send_calls s) (socket.wire s)
        (socket.log s ++ [socket.Recv bufsize]) (socket.closed s))).
Proof.
  unfold socket.recv.
  destruct (socket.on_recv s (socket.recv_calls s)); eauto.
Qed.

Lemma send_some_cases (self : WrappedSocket.t E) :
  let s := _socket self in
  let offered := _SecureTransportBuffer.peek_bytes (_buffer self) 8192 in
  let sent_log := socket.log s ++ [socket.Send offered] in
  (exists k wire',
     send_some self =
       (Return k,
        mk (socket.mk (socket.timeout s) (socket.on_recv s) (socket.on_send s)
              (socket.recv_calls s) (S (socket.send_calls s)) wire'
              sent_log (socket.closed s))
           (_SecureTransportBuffer.consume_bytes (_buffer self) k))) \/
  (exists e,
     send_some self =
       (Raise (OSError e),
        mk (socket.mk (socket.timeout s) (socket.on_recv s) (socket.on_send s)
              (socket.recv_calls s) (S (socket.send_calls s)) (socket.wire s)
              sent_log (socket.closed s))
           (_buffer self))).
Proof.
  cbv zeta. unfold send_some, socket.send.
  destruct (socket.on_send (_socket self) (socket.send_calls (_socket self)));
    eauto.
Qed.

(** One turn of the loop, case by case on the buffer wrapper's step. *)
Lemma loop_returns fuel blocking done_io (self : WrappedSocket.t E) :
  (buffer_do_handshake (_buffer self)).1 = Return tt ->
  do_handshake_loop engine (S fuel) blocking done_io self =
    (Some (Return tt), mk (_socket self) (buffer_do_handshake (_buffer self)).2).
Proof.
  cbn [do_handshake_loop].
  destruct (buffer_do_handshake (_buffer self)) as [r b]; simpl.
  intros ->. reflexivity.
Qed.

Lemma loop_fatal fuel blocking done_io (self : WrappedSocket.t E) status :
  (buffer_do_handshake (_buffer self)).1 = Raise (SecureTransportError status) ->
  do_handshake_loop engine (S fuel) blocking done_io self =
    (Some (Raise (SecureTransportError status)),
     mk (_socket self) (buffer_do_handshake (_buffer self)).2).
Proof.
  cbn [do_handshake_loop].
  destruct (buffer_do_handshake (_buffer self)) as [r b]; simpl.
  intros ->. reflexivity.
Qed.

Lemma loop_want_read fuel blocking done_io (self : WrappedSocket.t E) :
  (buffer_do_handshake (_buffer self)).1 = Raise WantReadError ->
  do_handshake_loop engine (S fuel) blocking done_io self =
    let b := (buffer_do_handshake (_buffer self)).2 in
    if negb blocking && done_io
    then (Some (Raise WantReadError), mk (_socket self) b)
    else
      match socket.recv (_socket self) 8192 with
      | (Return data, s) =>
          do_handshake_loop engine fuel blocking true (mk s (receive b data))
      | (Raise e, s) => (Some (Raise e), mk s b)
      end.
Proof.
  cbn [do_handshake_loop].
  destruct (buffer_do_handshake (_buffer self)) as [r b]; simpl.
  intros ->. reflexivity.
Qed.

Lemma loop_want_write fuel blocking done_io (self : WrappedSocket.t E) :
  (buffer_do_handshake (_buffer self)).1 = Raise WantWriteError ->
  do_handshake_loop engine (S fuel) blocking done_io self =
    let b := (buffer_do_handshake (_buffer self)).2 in
    if negb blocking && done_io
    then (Some (Raise WantWriteError), mk (_socket self) b)
    else
      match send_some (mk (_socket self) b) with
      | (Return _, self') => do_handshake_loop engine fuel blocking done_io self'
      | (Raise e, self') => (Some (Raise e), self')
      end.
Proof.
  cbn [do_handshake_loop].
  destruct (buffer_do_handshake (_buffer self)) as [r b]; simpl.
  intros ->. reflexivity.
Qed.

(** On a blocking socket the loop never lets a would-block signal out:
    whenever [do_handshake] comes back, it is with success, with the
    engine's fatal status or with an error of the socket. *)
Lemma do_handshake_loop_blocking fuel done_io (self self' : WrappedSocket.t E) r :
  do_handshake_loop engine fuel true done_io self = (Some r, self') ->
  r <> Raise WantReadError /\ r <> Raise WantWriteError.
Proof.
  revert done_io self. induction fuel as [|fuel IH]; intros done_io self H.
  - discriminate.
  - destruct (buffer_do_handshake_cases (_buffer self))
      as [Hc | [Hc | [Hc | [status Hc]]]].
    + rewrite loop_returns in H by assumption.
      injection H as <- _. split; discriminate.
    + rewrite loop_want_read in H by assumption. cbv zeta in H. simpl negb in H.
      rewrite andb_false_l in H.
      destruct (socket_recv_cases (_socket self) 8192) as [[data Hr]|[e Hr]];
        rewrite Hr in H.
      * eapply IH; eassumption.
      * injection H as <- _. split; discriminate.
    + rewrite loop_want_write in H by assumption. cbv zeta in H. simpl negb in H.
      rewrite andb_false_l in H.
      destruct (send_some_cases
                  (mk (_socket self) (buffer_do_handshake (_buffer self)).2))
        as [(k & w & Hs)|[e Hs]]; rewrite Hs in H.
      * eapply IH; eassumption.
      * injection H as <- _. split; discriminate.
    + rewrite loop_fatal with (status := status) in H by assumption.
      injection H as <- _. split; discriminate.
Qed.

(** X15: on a socket in blocking mode ([gettimeout()] is [None]),
    [do_handshake] never lets [WantReadError] or [WantWriteError] out,
    whatever the engine does and whatever the socket delivers or accepts:
    every would-block of the buffer wrapper is answered by a socket receive
    or a flush and another turn of the loop. *)
Lemma do_handshake_blocking_resolves_would_block
    fuel (self self' : WrappedSocket.t E) r :
  socket.gettimeout (_socket self) = None ->
  do_handshake engine fuel self = (Some r, self') ->
  r <> Raise WantReadError /\ r <> Raise WantWriteError.
Proof.
  unfold do_handshake. intros ->. apply do_handshake_loop_blocking.
Qed.
End HandshakeFacts.

Section NonBlockingFacts.
Context {E : Type}.
Variable engine : SSLSessionContext E.

Import WrappedSocket.
Abbreviation buffer_do_handshake := _SecureTransportBuffer.do_handshake.
Abbreviation receive := _SecureTransportBuffer.receive_bytes_from_network.

(** Non-blocking mode, after the one receive: the loop makes one more
    engine step and hands its outcome to the caller, whatever it is,
    without touching the socket. *)
Lemma loop_after_io fuel (self : WrappedSocket.t E) :
  do_handshake_loop engine (S fuel) false true self =
    (Some (buffer_do_handshake engine (_buffer self)).1,
     mk (_socket self) (buffer_do_handshake engine (_buffer self)).2).
Proof.
  destruct (buffer_do_handshake_cases engine (_buffer self))
    as [Hc | [Hc | [Hc | [status Hc]]]].
  - rewrite loop_returns by assumption. rewrite Hc. reflexivity.
  - rewrite loop_want_read by assumption. rewrite Hc. reflexivity.
  - rewrite loop_want_write by assumption. rewrite Hc. reflexivity.
  - rewrite loop_fatal with (status := status) by assumption.
    rewrite Hc. reflexivity.
Qed.

(** The socket calls of a non-blocking invocation: sends, then at most one
    receive, then nothing. *)
Lemma loop_nonblocking_calls fuel (self : WrappedSocket.t E) :
  let s := _socket self in
  let s' := _socket (do_handshake_loop engine fuel false false self).2 in
  exists sends tail,
    socket.log s' = socket.log s ++ sends ++ tail /\
    Forall is_send sends /\
    (tail = [] \/ tail = [socket.Recv 8192]) /\
    socket.recv_calls s' = (socket.recv_calls s + length tail)%nat.
Proof.
  cbv zeta. revert self. induction fuel as [|fuel IH]; intros self.
  { exists [], []. simpl. rewrite app_nil_r. auto with arith. }
  destruct (buffer_do_handshake_cases engine (_buffer self))
    as [Hc | [Hc | [Hc | [status Hc]]]].
  - rewrite loop_returns by assumption.
    exists [], []. simpl. rewrite app_nil_r. auto with arith.
  - rewrite loop_want_read by assumption. cbv zeta. simpl negb.
    rewrite andb_false_r.
    destruct (socket_recv_cases (_socket self) 8192) as [[data Hr]|[e Hr]];
      rewrite Hr.
    + exists [], [socket.Recv 8192].
      destruct fuel as [|fuel]; [|rewrite loop_after_io]; simpl;
        repeat split; auto; lia.
    + exists [], [socket.Recv 8192]. simpl. repeat split; auto; lia.
  - rewrite loop_want_write by assumption. cbv zeta. simpl negb.
    rewrite andb_false_r.
    destruct (send_some_cases
                (mk (_socket self) (buffer_do_handshake engine (_buffer self)).2))
      as [(k & w & Hs)|[e Hs]]; cbn [_socket _buffer] in Hs; rewrite Hs;
      cbv beta iota.
    + match goal with
      | |- context [do_handshake_loop engine fuel false false ?x] =>
          destruct (IH x) as (sends & tail & Hlog & Hsends & Htail & Hn)
      end.
      cbn [_socket socket.log socket.recv_calls] in Hlog, Hn.
      eexists (socket.Send _ :: sends), tail.
      rewrite Hlog, Hn, <- app_assoc.
      repeat split; auto. constructor; [exact I | assumption].
    + eexists [socket.Send _], [].
      cbn [snd _socket socket.log socket.recv_calls length].
      rewrite app_nil_r, Nat.add_0_r.
      repeat split; auto. constructor; [exact I | constructor].
  - rewrite loop_fatal with (status := status) by assumption.
    exists [], []. simpl. rewrite app_nil_r. auto with arith.
Qed.

(** C3, as amended: on a socket in non-blocking mode one [do_handshake]
    invocation makes at most one socket receive, and that receive is the
    last socket call of the invocation; only sends can come before it.
    When the first engine step needs input, exactly one receive is made:
    if it raises, which is what a non-blocking socket does when no data is
    available, the socket's own exception goes to the caller; if it
    returns, the outcome of the next engine step, [WantReadError] when
    input is still missing, goes to the caller with no further socket
    call. *)
Theorem nonblocking_handshake_receives_at_most_once
    (self : WrappedSocket.t E) :
  socket.gettimeout (_socket self) <> None ->
  let s := _socket self in
  (forall fuel : nat,
     let s' := _socket (do_handshake engine fuel self).2 in
     exists sends tail,
       socket.log s' = socket.log s ++ sends ++ tail /\
       Forall is_send sends /\
       (tail = [] \/ tail = [socket.Recv 8192]) /\
       socket.recv_calls s' = (socket.recv_calls s + length tail)%nat) /\
  ((buffer_do_handshake engine (_buffer self)).1 = Raise WantReadError ->
   let b1 := (buffer_do_handshake engine (_buffer self)).2 in
   let s1 := (socket.recv s 8192).2 in
   socket.log s1 = socket.log s ++ [socket.Recv 8192] /\
   forall fuel : nat,
     match (socket.recv s 8192).1 with
     | Raise e =>
         do_handshake engine (S fuel) self = (Some (Raise e), mk s1 b1)
     | Return data =>
         let step := buffer_do_handshake engine (receive b1 data) in
         do_handshake engine (S (S fuel)) self = (Some step.1, mk s1 step.2)
     end).
Proof.
  intros Hmode. cbv zeta. unfold do_handshake.
  destruct (socket.gettimeout (_socket self)) as [timeout|] eqn:Hto;
    [|congruence].
  split.
  - intros fuel. apply loop_nonblocking_calls.
  - intros Hneed. split.
    + destruct (socket_recv_cases (_socket self) 8192) as [[d Hr]|[e Hr]];
        rewrite Hr; reflexivity.
    + intros fuel.
      rewrite !loop_want_read by assumption. cbv zeta.
      simpl negb. rewrite !andb_false_r.
      destruct (socket_recv_cases (_socket self) 8192) as [[d Hr]|[e Hr]];
        rewrite Hr; cbn [fst snd].
      * rewrite loop_after_io. reflexivity.
      * reflexivity.
Qed.
End NonBlockingFacts.

(** C3, as stated, fails. The socket is non-blocking, ingress is empty and
    no data is available, so the one [recv] raises [BlockingIOError]; that
    exception, not [WantReadError], is what the invocation ends with. *)
Lemma nonblocking_no_data_raises_socket_error :
  let run := WrappedSocket.do_handshake Demo.engine 10 Demo.nonblocking_no_data in
  _SecureTransportBuffer._receive_buffer
    (WrappedSocket._buffer Demo.nonblocking_no_data) = [] /\
  socket.gettimeout (WrappedSocket._socket Demo.nonblocking_no_data)
    = Some 0%nat /\
  run.1 = Some (Raise (OSError BlockingIOError)) /\
  run.1 <> Some (Raise WantReadError) /\
  socket.log (WrappedSocket._socket run.2) = [socket.Recv 8192].
Proof.
  cbv zeta.
  assert (Hrun : (WrappedSocket.do_handshake Demo.engine 10
                    Demo.nonblocking_no_data).1
                 = Some (Raise (OSError BlockingIOError)))
    by (vm_compute; reflexivity).
  repeat split; try assumption; try reflexivity.
  rewrite Hrun. discriminate.
Qed.

(** The non-blocking scenario in which data does arrive but not enough of
    it: one receive, then [WantReadError]. *)
Lemma nonblocking_handshake_receives_at_most_once_witness :
  let self := Demo.nonblocking_two_bytes in
  let run := WrappedSocket.do_handshake Demo.engine 2 self in
  socket.gettimeout (WrappedSocket._socket self) <> None /\
  run.1 = Some (Raise WantReadError) /\
  socket.log (WrappedSocket._socket run.2) = [socket.Recv 8192].
Proof.
  cbv zeta.
  assert (Hmode : socket.gettimeout (WrappedSocket._socket Demo.nonblocking_two_bytes)
                  <> None) by discriminate.
  destruct (nonblocking_handshake_receives_at_most_once Demo.engine
              Demo.nonblocking_two_bytes Hmode) as [_ Hneed].
  destruct (Hneed eq_refl) as [Hlog Hrun].
  specialize (Hrun 0%nat). cbv beta iota zeta in Hrun.
  change ((socket.recv (WrappedSocket._socket Demo.nonblocking_two_bytes) 8192).1)
    with (@Return bytes [x17; x03]) in Hrun.
  cbv beta iota zeta in Hrun.
  split; [exact Hmode|]. rewrite Hrun. cbn [fst snd WrappedSocket._socket].
  split; [reflexivity | exact Hlog].
Defined.

(** C2 fails on [recv]. The socket is in blocking mode and ingress is
    empty; the engine needs a record of five bytes and the one socket
    receive that [recv] makes delivers two. The second [read] would block
    again and its [WantReadError] goes to the application: [recv] has no
    loop around it, where [do_handshake] has one. *)
Theorem blocking_recv_raises_WantReadError :
  let self := Demo.blocking_two_bytes in
  let run := WrappedSocket.recv Demo.engine self 5 in
  socket.gettimeout (WrappedSocket._socket self) = None /\
  run.1 = Raise WantReadError /\
  socket.log (WrappedSocket._socket run.2) = [socket.Recv 8192].
Proof. cbv zeta. repeat split; vm_compute; reflexivity. Qed.

Section UnwrapFacts.
Context {E : Type}.

Import WrappedSocket.
Abbreviation egress_of := _SecureTransportBuffer._send_buffer.

Lemma drain_step fuel (self : WrappedSocket.t E) :
  drain (S fuel) self =
    match _SecureTransportBuffer.peek_bytes (_buffer self) 8192 with
    | [] => (Some (Return tt), self)
    | _ :: _ =>
        match send_some self with
        | (Return _, self') => drain fuel self'
        | (Raise e, self') => (Some (Raise e), self')
        end
    end.
Proof. reflexivity. Qed.

End UnwrapFacts.

Section CloseFacts.
Context {E : Type}.
Variable engine : SSLSessionContext E.

Import WrappedSocket.
Abbreviation buffer_shutdown := _SecureTransportBuffer.shutdown.
Abbreviation egress_of := _SecureTransportBuffer._send_buffer.

(** The shape of the failure, for any engine: an exception of the shutdown
    step goes through [unwrap] and [close] as it is. *)
Lemma unwrap_propagates_shutdown_exception
    (self : WrappedSocket.t E) (fuel : nat) (e : exn) :
  (buffer_shutdown engine (_buffer self)).1 = Raise e ->
  unwrap engine fuel self =
    (Some (Raise e), mk (_socket self) (buffer_shutdown engine (_buffer self)).2) /\
  close engine fuel self =
    (Some (Raise e), mk (_socket self) (buffer_shutdown engine (_buffer self)).2).
Proof.
  unfold close, unwrap.
  destruct (buffer_shutdown engine (_buffer self)) as [r b].
  cbn [fst snd]. intros ->. split; reflexivity.
Qed.

End CloseFacts.

(** C7 fails on the code. The socket is in blocking mode; the engine
    stages its closure alert and then waits for the peer's, so that the
    shutdown step ends in a would-block. [unwrap] does not catch it: the
    caller gets [WantWriteError] instead of the raw socket, nothing is
    drained and the alert stays in egress; [close] ends the same way and
    leaves the raw socket open. *)
Theorem unwrap_raises_when_shutdown_would_block :
  let self :=
    WrappedSocket.mk (socket.fresh None Demo.no_data (Demo.accepts 8192))
                     Demo.awaiting_server in
  let run := WrappedSocket.unwrap Demo.lingering_engine 10 self in
  let shut := WrappedSocket.close Demo.lingering_engine 10 self in
  socket.gettimeout (WrappedSocket._socket self) = None /\
  run.1 = Some (Raise WantWriteError) /\
  _SecureTransportBuffer._send_buffer (WrappedSocket._buffer run.2)
    = Demo.close_notify /\
  socket.wire (WrappedSocket._socket run.2) = [] /\
  socket.log (WrappedSocket._socket run.2) = [] /\
  shut.1 = Some (Raise WantWriteError) /\
  socket.closed (WrappedSocket._socket shut.2) = false /\
  socket.log (WrappedSocket._socket shut.2) = [].
Proof. cbv zeta. repeat split; vm_compute; reflexivity. Qed.


(* ===================================================================== *)
(** * Part VI: further properties                                         *)
(* ===================================================================== *)

Section MoreConfigurationFacts.
Context {Certificate PrivateKey TrustStore ServerNameCallback : Type}.
Variable DEFAULT_CIPHER_LIST : list CipherSuite.

Abbreviation Config :=
  (TLSConfiguration Certificate PrivateKey TrustStore ServerNameCallback).
Abbreviation Kwargs :=
  (update_kwargs Certificate PrivateKey TrustStore ServerNameCallback).
Abbreviation upd := (update DEFAULT_CIPHER_LIST).

Lemma default_if_None_twice {A} (x : option A) (d : A) :
  default_if_None (default_if_None x d) d = default_if_None x d.
Proof. destruct x; reflexivity. Qed.

Lemma keep_later_kwarg {A} (earlier later : kwarg (option A))
    (c : option A) (dflt : A) :
  default_if_None
    (keep_if_default later
       (default_if_None (keep_if_default earlier c) dflt)) dflt
  = default_if_None (keep_if_default (later_kwarg earlier later) c) dflt.
Proof.
  destruct later as [|v]; simpl; [apply default_if_None_twice | reflexivity].
Qed.

Lemma keep_later_kwarg_plain {A} (earlier later : kwarg A) (c : A) :
  keep_if_default later (keep_if_default earlier c)
  = keep_if_default (later_kwarg earlier later) c.
Proof. destruct later; reflexivity. Qed.

(** X1: two updates in a row are one update: updating [c] with keywords
    [k1] and the result with keywords [k2] equals one [update] of [c] with
    the keywords of both calls, those of the second call winning; and no [update], on any configuration value, leaves
    [None] in one of the five fields the constructor defaults. *)
Theorem update_twice_is_one_update (c : Config) (kw1 kw2 : Kwargs) :
  upd (upd c kw1) kw2 = upd c (merge_kwargs kw1 kw2) /\
  constructed (upd c kw1).
Proof.
  split; [|apply new_constructed].
  unfold update, __new__, merge_kwargs; simpl.
  rewrite !keep_later_kwarg.
  rewrite !keep_later_kwarg_plain. reflexivity.
Qed.
End MoreConfigurationFacts.

Section MoreBufferFacts.
Context {E : Type}.
Variable engine : SSLSessionContext E.

Import _SecureTransportBuffer.

(** Whatever an [except WouldBlockError] clause raises instead, the object
    is left as the engine call left it. *)
Lemma handler_keeps_state {A} (op : E -> EngineCall (Z * A * E)) (self : t E)
    (signal : t E -> exn) :
  (match st_call op self with
   | (Raise WouldBlockError, self') => (Raise (signal self'), self')
   | (r, self') => (r, self')
   end).2 = (st_call op self).2.
Proof.
  destruct (st_call op self) as [[a|[]] self']; reflexivity.
Qed.

Lemma handler_result {A} (op : E -> EngineCall (Z * A * E)) (self : t E)
    (signal : exn) :
  let r := (match st_call op self with
            | (Raise WouldBlockError, self') => (Raise signal, self')
            | (r, self') => (r, self')
            end).1 in
  (exists a, r = Return a /\ (st_call op self).1 = Return a) \/
  (r = Raise signal /\ (st_call op self).1 = Raise WouldBlockError) \/
  (exists status, r = Raise (SecureTransportError status) /\
                  (st_call op self).1 = Raise (SecureTransportError status)).
Proof.
  cbv zeta.
  destruct (st_call_cases op self) as [[a H] | [H | [status H]]];
    destruct (st_call op self) as [r self']; simpl in H; subst r; simpl; eauto.
Qed.

Lemma staging_extends_st_call {A} (op : E -> EngineCall (Z * A * E)) (self : t E) :
  staging_extends self (st_call op self).2.
Proof. apply st_call_buffers. Qed.

Lemma read_extends (self : t E) (amt : option nat) :
  staging_extends self (read engine self amt).2.
Proof.
  destruct amt as [amt|].
  - destruct (read_spec engine amt self) as (-> & _).
    apply staging_extends_st_call.
  - exists [], []. simpl. rewrite app_nil_r. auto.
Qed.

Lemma write_extends (self : t E) (buf : bytes) :
  staging_extends self (write engine self buf).2.
Proof.
  unfold write. rewrite (handler_keeps_state _ _ (fun _ => WantWriteError)).
  apply staging_extends_st_call.
Qed.

Lemma do_handshake_extends (self : t E) :
  staging_extends self (do_handshake engine self).2.
Proof.
  unfold do_handshake. rewrite (handler_keeps_state _ _ want_write_or_read).
  apply staging_extends_st_call.
Qed.

Lemma shutdown_extends (self : t E) :
  staging_extends self (shutdown engine self).2.
Proof.
  unfold shutdown. rewrite (handler_keeps_state _ _ want_write_or_read).
  apply staging_extends_st_call.
Qed.

(** X2: none of the four operations of the buffer wrapper that call the
    engine ([read], [write], [do_handshake], [shutdown]) can lose or
    reorder staged bytes, whatever the engine does and whatever the
    outcome: the ingress buffer afterwards is a suffix of what it was, and
    the egress buffer afterwards starts with everything it held. *)
Theorem engine_calls_keep_staged_bytes (self : t E) :
  (forall amt : option nat, staging_extends self (read engine self amt).2) /\
  (forall buf : bytes, staging_extends self (write engine self buf).2) /\
  staging_extends self (do_handshake engine self).2 /\
  staging_extends self (shutdown engine self).2.
Proof.
  repeat split.
  - apply read_extends.
  - apply write_extends.
  - apply do_handshake_extends.
  - apply shutdown_extends.
Qed.

Lemma buffer_read_cases (self : t E) (amt : nat) :
  (exists data, (read engine self (Some amt)).1 = Return data) \/
  (read engine self (Some amt)).1 = Raise WantReadError \/
  (exists status,
     (read engine self (Some amt)).1 = Raise (SecureTransportError status)).
Proof. apply read_spec. Qed.

Lemma buffer_write_cases (self : t E) (buf : bytes) :
  (exists n, (write engine self buf).1 = Return n) \/
  (write engine self buf).1 = Raise WantWriteError \/
  (exists status,
     (write engine self buf).1 = Raise (SecureTransportError status)).
Proof.
  unfold write.
  destruct (handler_result (fun s => SSLWrite engine s buf) self WantWriteError)
    as [(a & H & _) | [(H & _) | (status & H & _)]]; rewrite H; eauto.
Qed.

(** X3: the signal [read] and [write] raise on an engine would-block is
    fixed by the method, not by the staging buffers: [read] raises
    [WantReadError] and never [WantWriteError], also when the engine staged
    output during the call; [write] raises [WantWriteError] and never
    [WantReadError]. Neither lets the engine's own [WouldBlockError]
    through. *)
Theorem read_and_write_signal_is_fixed (self : t E) :
  (forall amt : nat,
     (read engine self (Some amt)).1 <> Raise WantWriteError /\
     (read engine self (Some amt)).1 <> Raise WouldBlockError /\
     ((st_call (fun s => SSLRead engine s amt) self).1 = Raise WouldBlockError <->
      (read engine self (Some amt)).1 = Raise WantReadError)) /\
  (forall buf : bytes,
     (write engine self buf).1 <> Raise WantReadError /\
     (write engine self buf).1 <> Raise WouldBlockError /\
     ((st_call (fun s => SSLWrite engine s buf) self).1 = Raise WouldBlockError <->
      (write engine self buf).1 = Raise WantWriteError)).
Proof.
  split.
  - intros amt.
    destruct (read_spec engine amt self) as (_ & Hcases & Hwb).
    split; [|split].
    + destruct Hcases as [[a ->] | [-> | [status ->]]]; discriminate.
    + destruct Hcases as [[a ->] | [-> | [status ->]]]; discriminate.
    + symmetry. exact Hwb.
  - intros buf. unfold write.
    destruct (handler_result (fun s => SSLWrite engine s buf) self WantWriteError)
      as [(a & H & Hs) | [(H & Hs) | (status & H & Hs)]]; rewrite H, Hs;
      repeat split; try discriminate; auto.
Qed.

(** X4: [readinto] never fails the assertion of [read]: a missing [amt],
    or one larger than the buffer, is replaced by the length of the buffer,
    so that the engine is asked for [min amt (len buffer)] bytes. An
    exception of [read] leaves the caller's buffer untouched. On success
    the count returned is the number of bytes read, these bytes are the
    head of the buffer and the bytes behind them are unchanged; when the
    engine returned no more than the buffer holds the buffer keeps its
    length. *)
Theorem readinto_clamps_and_fills (self : t E) (buffer : bytes)
    (amt : option nat) :
  let asked :=
    match amt with
    | None => length buffer
    | Some amt => (amt `min` length buffer)%nat
    end in
  let step := read engine self (Some asked) in
  let run := readinto engine self buffer amt in
  run.1 <> Raise AssertionError /\
  run.2.1 = step.2 /\
  (forall e, step.1 = Raise e -> run.1 = Raise e /\ run.2.2 = buffer) /\
  (forall data,
     step.1 = Return data ->
     run.1 = Return (length data) /\
     take (length data) run.2.2 = data /\
     drop (length data) run.2.2 = drop (length data) buffer /\
     ((length data <= length buffer)%nat -> length run.2.2 = length buffer)).
Proof.
  cbv zeta. unfold readinto.
  assert (Hasked :
    match amt with
    | None => length buffer
    | Some amt => if (length buffer <? amt)%nat then length buffer else amt
    end
    = match amt with
      | None => length buffer
      | Some amt => (amt `min` length buffer)%nat
      end).
  { destruct amt as [amt|]; [|reflexivity].
    destruct (Nat.ltb_spec (length buffer) amt); lia. }
  rewrite Hasked. clear Hasked.
  set (asked := match amt with
                | None => length buffer
                | Some amt => (amt `min` length buffer)%nat
                end).
  destruct (buffer_read_cases self asked) as [[data H] | [H | [status H]]];
    destruct (read engine self (Some asked)) as [r self'];
    simpl in H; subst r; cbn [fst snd];
    (split; [discriminate|]); (split; [reflexivity|]); split;
    try (intros ? [=]); try (intros ? [= <-]); subst; try (split; reflexivity).
  repeat split.
  - rewrite take_app_length. reflexivity.
  - rewrite drop_app_length. reflexivity.
  - intros Hle. rewrite length_app, length_drop. lia.
Qed.
End MoreBufferFacts.

Section OutboundFacts.
Context {E : Type}.

Import WrappedSocket.
Abbreviation egress_of := _SecureTransportBuffer._send_buffer.

Lemma outbound_mk (s : socket.t) (b : _SecureTransportBuffer.t E) :
  outbound (mk s b) = socket.wire s ++ egress_of b.
Proof. reflexivity. Qed.

(** A flush step moves bytes from the head of egress to the wire and does
    nothing else to the outbound stream, whether [send] returns or
    raises. *)
Lemma send_some_outbound (self : WrappedSocket.t E) :
  outbound (send_some self).2 = outbound self.
Proof.
  destruct (send_some self) as [[k|e] self'] eqn:Hrun.
  - destruct (send_some_returns self self' k Hrun) as (n & _ & _ & ->).
    unfold outbound. cbn [snd _socket _buffer socket.wire egress_of
                         _SecureTransportBuffer.consume_bytes
                         _SecureTransportBuffer._send_buffer].
    rewrite <- app_assoc, take_drop. reflexivity.
  - unfold send_some, socket.send in Hrun.
    destruct (socket.on_send (_socket self) (socket.send_calls (_socket self)));
      [discriminate|].
    injection Hrun as _ <-. reflexivity.
Qed.

Lemma send_some_ingress (self : WrappedSocket.t E) :
  _SecureTransportBuffer._receive_buffer (_buffer (send_some self).2)
  = _SecureTransportBuffer._receive_buffer (_buffer self).
Proof.
  unfold send_some, socket.send.
  destruct (socket.on_send (_socket self) (socket.send_calls (_socket self)));
    reflexivity.
Qed.

Lemma run_egress_conserves (ops : list egress_op) (self : WrappedSocket.t E) :
  outbound (run_egress ops self) = outbound self ++ staged ops /\
  _SecureTransportBuffer._receive_buffer (_buffer (run_egress ops self))
  = _SecureTransportBuffer._receive_buffer (_buffer self).
Proof.
  revert self. induction ops as [|[data|] ops IH]; intros self; simpl.
  - rewrite app_nil_r. auto.
  - destruct (IH (mk (_socket self)
                     (_SecureTransportBuffer.mk
                        (_SecureTransportBuffer._receive_buffer (_buffer self))
                        (egress_of (_buffer self) ++ data)
                        (_SecureTransportBuffer._st_context (_buffer self)))))
      as [Hout Hin].
    split; [|exact Hin].
    rewrite Hout. unfold outbound. simpl. rewrite <- !app_assoc. reflexivity.
  - destruct (IH (send_some self).2) as [Hout Hin].
    rewrite Hout, Hin, send_some_outbound, send_some_ingress. auto.
Qed.
End OutboundFacts.

(** X5: the egress side is first in, first out, end to end. After any
    interleaving of engine write callbacks and flush steps, on any socket
    (partial sends and failing sends included), the bytes on the wire
    followed by the bytes still staged are exactly what was there at the
    start followed by everything the engine staged since, in order:
    nothing is lost, duplicated or reordered on the way to the peer. The
    ingress buffer is not touched. *)
Theorem egress_is_fifo {E} (ops : list egress_op) (self : WrappedSocket.t E) :
  outbound (run_egress ops self) = outbound self ++ staged ops /\
  _SecureTransportBuffer._receive_buffer
    (WrappedSocket._buffer (run_egress ops self))
  = _SecureTransportBuffer._receive_buffer (WrappedSocket._buffer self).
Proof. apply run_egress_conserves. Qed.

Section RecvAndSendFacts.
Context {E : Type}.
Variable engine : SSLSessionContext E.

Import WrappedSocket.
Abbreviation buffer_read := _SecureTransportBuffer.read.
Abbreviation buffer_write := _SecureTransportBuffer.write.
Abbreviation receive := _SecureTransportBuffer.receive_bytes_from_network.

(** [recv] when the first [read] does not ask for input. *)
Lemma recv_without_io (self : WrappedSocket.t E) (bufsize : nat) :
  (buffer_read engine (_buffer self) (Some bufsize)).1 <> Raise WantReadError ->
  recv engine self bufsize =
    ((buffer_read engine (_buffer self) (Some bufsize)).1,
     mk (_socket self) (buffer_read engine (_buffer self) (Some bufsize)).2).
Proof.
  unfold recv.
  destruct (buffer_read engine (_buffer self) (Some bufsize)) as [[data|e] b];
    [reflexivity|].
  destruct e; try reflexivity. intros H. exfalso. apply H. reflexivity.
Qed.

(** [recv] when the first [read] asks for input. *)
Lemma recv_with_io (self : WrappedSocket.t E) (bufsize : nat) :
  (buffer_read engine (_buffer self) (Some bufsize)).1 = Raise WantReadError ->
  recv engine self bufsize =
    let b := (buffer_read engine (_buffer self) (Some bufsize)).2 in
    match socket.recv (_socket self) 8192 with
    | (Return [], s) => (Return [], mk s b)
    | (Return data, s) =>
        ((buffer_read engine (receive b data) (Some bufsize)).1,
         mk s (buffer_read engine (receive b data) (Some bufsize)).2)
    | (Raise e, s) => (Raise e, mk s b)
    end.
Proof.
  unfold recv.
  destruct (buffer_read engine (_buffer self) (Some bufsize)) as [r b].
  cbn [fst snd]. intros ->. cbv zeta.
  destruct (socket.recv (_socket self) 8192) as [[[|x data]|e] s];
    try reflexivity.
  destruct (buffer_read engine (receive b (x :: data)) (Some bufsize));
    reflexivity.
Qed.

(** X6: one [recv] on the socket-shaped wrapper makes at most one socket
    receive and never sends; when the first [read] does not ask for input
    it does not touch the socket at all and its outcome is that of the
    [read]. Whatever happens, [recv] never raises [WantWriteError]. *)
Theorem recv_receives_at_most_once (self : WrappedSocket.t E) (bufsize : nat) :
  let first := buffer_read engine (_buffer self) (Some bufsize) in
  let run := recv engine self bufsize in
  socket.send_calls (_socket run.2) = socket.send_calls (_socket self) /\
  socket.wire (_socket run.2) = socket.wire (_socket self) /\
  (socket.recv_calls (_socket run.2) <= S (socket.recv_calls (_socket self)))%nat /\
  (first.1 <> Raise WantReadError ->
   run = (first.1, mk (_socket self) first.2)) /\
  run.1 <> Raise WantWriteError.
Proof.
  cbv zeta.
  destruct (buffer_read_cases engine (_buffer self) bufsize)
    as [[data H] | [H | [status H]]].
  - rewrite recv_without_io by (rewrite H; discriminate).
    rewrite H. cbn [fst snd _socket]. repeat split; auto; discriminate.
  - rewrite recv_with_io by assumption. cbv zeta.
    destruct (socket_recv_cases (_socket self) 8192) as [[data Hr]|[e Hr]];
      rewrite Hr.
    + destruct data as [|x data]; cbn [fst snd _socket socket.send_calls
                                       socket.wire socket.recv_calls];
        repeat split; auto; try discriminate; try congruence.
      destruct (buffer_read_cases engine
                  (receive (buffer_read engine (_buffer self) (Some bufsize)).2
                           (x :: data)) bufsize)
        as [[d H2] | [H2 | [status H2]]]; rewrite H2; discriminate.
    + cbn [fst snd _socket socket.send_calls socket.wire socket.recv_calls].
      repeat split; auto; try discriminate; congruence.
  - rewrite recv_without_io by (rewrite H; discriminate).
    rewrite H. cbn [fst snd _socket]. repeat split; auto; discriminate.
Qed.

(** X7: end of stream. When [read] asks for input and the socket's [recv]
    delivers no byte, [recv] returns the empty byte string: the engine is
    not called a second time, nothing is appended to ingress, and exactly
    one socket receive was made. *)
Theorem recv_returns_empty_at_end_of_stream
    (self : WrappedSocket.t E) (bufsize : nat) :
  (buffer_read engine (_buffer self) (Some bufsize)).1 = Raise WantReadError ->
  socket.on_recv (_socket self) (socket.recv_calls (_socket self))
    = socket.Delivers [] ->
  let run := recv engine self bufsize in
  run.1 = Return [] /\
  _buffer run.2 = (buffer_read engine (_buffer self) (Some bufsize)).2 /\
  socket.recv_calls (_socket run.2) = S (socket.recv_calls (_socket self)) /\
  socket.log (_socket run.2) = socket.log (_socket self) ++ [socket.Recv 8192].
Proof.
  intros Hread Heof. cbv zeta.
  rewrite recv_with_io by assumption. cbv zeta.
  unfold socket.recv. rewrite Heof. rewrite take_nil.
  cbn [fst snd _socket _buffer socket.recv_calls socket.log]. auto.
Qed.

(** [send], case by case on what the buffer wrapper's [write] does. *)
Lemma send_after_write (self : WrappedSocket.t E) (data : bytes) :
  let step := buffer_write engine (_buffer self) data in
  let flush written :=
    match send_some (mk (_socket self) step.2) with
    | (Return _, self') => (Return written, self')
    | (Raise e, self') => (Raise e, self')
    end in
  (forall n, step.1 = Return n -> send engine self data = flush n) /\
  (step.1 = Raise WantWriteError -> send engine self data = flush 0%nat) /\
  (forall status,
     step.1 = Raise (SecureTransportError status) ->
     send engine self data
     = (Raise (SecureTransportError status), mk (_socket self) step.2)).
Proof.
  cbv zeta. unfold send.
  destruct (buffer_write engine (_buffer self) data) as [r b]. simpl.
  repeat split.
  - intros n ->. reflexivity.
  - intros ->. reflexivity.
  - intros status ->. reflexivity.
Qed.

Lemma flush_counts (x : WrappedSocket.t E) (written : nat) :
  let run :=
    match send_some x with
    | (Return _, self') => (Return written, self')
    | (Raise e, self') => (Raise e, self')
    end in
  socket.recv_calls (_socket run.2) = socket.recv_calls (_socket x) /\
  socket.send_calls (_socket run.2) = S (socket.send_calls (_socket x)) /\
  socket.on_send (_socket run.2) = socket.on_send (_socket x) /\
  (run.1 = Return written \/ exists e, run.1 = Raise (OSError e)).
Proof.
  cbv zeta.
  destruct (send_some_cases x) as [(k & w & Hs)|[e Hs]]; rewrite Hs;
    cbn [fst snd _socket socket.recv_calls socket.send_calls socket.on_send];
    eauto 6.
Qed.

(** X8: [send] on the socket-shaped wrapper never raises a would-block
    signal: a [WantWriteError] of the buffer wrapper's [write] is turned
    into a count of zero bytes written. It never receives, and it makes at
    most one socket [send]: exactly one whenever it returns a count, and in
    particular one when [write] would block. *)
Theorem send_hides_would_block (self : WrappedSocket.t E) (data : bytes) :
  let run := send engine self data in
  run.1 <> Raise WantReadError /\
  run.1 <> Raise WantWriteError /\
  socket.recv_calls (_socket run.2) = socket.recv_calls (_socket self) /\
  (socket.send_calls (_socket run.2) <= S (socket.send_calls (_socket self)))%nat /\
  (forall n, run.1 = Return n ->
     socket.send_calls (_socket run.2) = S (socket.send_calls (_socket self))) /\
  ((buffer_write engine (_buffer self) data).1 = Raise WantWriteError ->
   socket.send_calls (_socket run.2) = S (socket.send_calls (_socket self)) /\
   (run.1 = Return 0%nat \/ exists e, run.1 = Raise (OSError e))).
Proof.
  cbv zeta.
  destruct (send_after_write self data) as (Hret & Hwb & Hfatal).
  destruct (buffer_write_cases engine (_buffer self) data)
    as [[n H] | [H | [status H]]].
  - rewrite (Hret n H).
    destruct (flush_counts
                (mk (_socket self) (buffer_write engine (_buffer self) data).2) n)
      as (Hr & Hs & _ & Hout).
    cbn [_socket] in Hr, Hs. rewrite Hr, Hs.
    split; [destruct Hout as [-> | [e ->]]; discriminate|].
    split; [destruct Hout as [-> | [e ->]]; discriminate|].
    split; [reflexivity|]. split; [apply Nat.le_refl|].
    split; [intros; reflexivity|].
    intros Hwant. exfalso. congruence.
  - rewrite (Hwb H).
    destruct (flush_counts
                (mk (_socket self) (buffer_write engine (_buffer self) data).2)
                0%nat)
      as (Hr & Hs & _ & Hout).
    cbn [_socket] in Hr, Hs. rewrite Hr, Hs.
    split; [destruct Hout as [-> | [e ->]]; discriminate|].
    split; [destruct Hout as [-> | [e ->]]; discriminate|].
    split; [reflexivity|]. split; [apply Nat.le_refl|].
    split; [intros; reflexivity|].
    intros _. split; [reflexivity | exact Hout].
  - rewrite (Hfatal status H). cbn [fst snd _socket].
    split; [discriminate|]. split; [discriminate|].
    split; [reflexivity|]. split; [apply Nat.le_succ_diag_r|].
    split; [intros n; discriminate|].
    intros Hwant. exfalso. congruence.
Qed.
End RecvAndSendFacts.

Section SendallFacts.
Context {E : Type}.
Variable engine : SSLSessionContext E.

Import WrappedSocket.
Abbreviation buffer_write := _SecureTransportBuffer.write.

Lemma sendall_step fuel (self : WrappedSocket.t E) (x : byte) (rest : bytes) :
  sendall engine (S fuel) self (x :: rest) =
    match send engine self (x :: rest) with
    | (Return sent, self') => sendall engine fuel self' (drop sent (x :: rest))
    | (Raise e, self') => (Some (Raise e), self')
    end.
Proof. reflexivity. Qed.

(** One [send] when [write] does not fail and the socket's [send] does not
    raise. *)
Lemma send_on_good_socket (self : WrappedSocket.t E) (data : bytes)
    (written : nat) :
  send_never_fails (_socket self) ->
  (buffer_write engine (_buffer self) data).1 = Return written \/
  ((buffer_write engine (_buffer self) data).1 = Raise WantWriteError /\
   written = 0%nat) ->
  exists self',
    send engine self data = (Return written, self') /\
    socket.on_send (_socket self') = socket.on_send (_socket self) /\
    socket.recv_calls (_socket self') = socket.recv_calls (_socket self) /\
    socket.send_calls (_socket self') = S (socket.send_calls (_socket self)).
Proof.
  intros Hsock Hstep.
  destruct (send_after_write engine self data) as (Hret & Hwb & _).
  assert (Hsend : send engine self data =
            match send_some
                    (mk (_socket self)
                        (buffer_write engine (_buffer self) data).2) with
            | (Return _, self') => (Return written, self')
            | (Raise e, self') => (Raise e, self')
            end).
  { destruct Hstep as [H | [H ->]]; [apply Hret | apply Hwb]; assumption. }
  rewrite Hsend. unfold send_some, socket.send. cbn [_socket _buffer].
  destruct (Hsock (socket.send_calls (_socket self))) as [k ->].
  eexists. split; [reflexivity|]. cbn [_socket socket.on_send
    socket.recv_calls socket.send_calls]. auto.
Qed.

(** X9: [sendall] returns when every [write] takes at least one byte and
    the socket's [send] does not raise: it comes back after at most one
    [send] call of the wrapper per byte, each of which makes one socket
    [send], and it never receives. Called with the empty byte string it
    returns at once and leaves the object as it was. *)
Theorem sendall_completes (fuel : nat) (self : WrappedSocket.t E) (data : bytes) :
  (forall b buf, buf <> [] ->
     exists n, (buffer_write engine b buf).1 = Return (S n)) ->
  send_never_fails (_socket self) ->
  (length data < fuel)%nat ->
  let run := sendall engine fuel self data in
  run.1 = Some (Return tt) /\
  socket.recv_calls (_socket run.2) = socket.recv_calls (_socket self) /\
  (socket.send_calls (_socket run.2)
   <= socket.send_calls (_socket self) + length data)%nat /\
  (data = [] -> run.2 = self).
Proof.
  intros Hwrite. cbv zeta. revert self data.
  induction fuel as [|fuel IH]; intros self data Hsock Hlen; [lia|].
  destruct data as [|x rest].
  - simpl. repeat split; auto. lia.
  - rewrite sendall_step.
    destruct (Hwrite (_buffer self) (x :: rest)) as [n Hn]; [discriminate|].
    destruct (send_on_good_socket self (x :: rest) (S n) Hsock (or_introl Hn))
      as (self' & -> & Hon & Hr & Hs).
    assert (Hsock' : send_never_fails (_socket self')).
    { intros i. rewrite Hon. apply Hsock. }
    assert (Hlen' : (length (drop (S n) (x :: rest)) < fuel)%nat).
    { rewrite length_drop. simpl in *. lia. }
    destruct (IH self' (drop (S n) (x :: rest)) Hsock' Hlen')
      as (Hrun & Hr' & Hs' & _).
    rewrite Hrun, Hr', Hr. split; [reflexivity|]. split; [reflexivity|].
    split; [|discriminate].
    rewrite length_drop in Hs'. simpl in *. lia.
Qed.

(** X10: [sendall] does not come back when the engine's [write] keeps
    answering would-block: [send] reports zero bytes written each time, so
    the loop offers the same bytes again, for ever. With a socket whose
    [send] does not raise, no amount of fuel ends the loop on a non-empty
    byte string. *)
Theorem sendall_spins_when_write_would_block
    (fuel : nat) (self : WrappedSocket.t E) (data : bytes) :
  (forall b buf, (buffer_write engine b buf).1 = Raise WantWriteError) ->
  send_never_fails (_socket self) ->
  data <> [] ->
  (sendall engine fuel self data).1 = None /\
  socket.send_calls (_socket (sendall engine fuel self data).2)
  = (socket.send_calls (_socket self) + fuel)%nat.
Proof.
  intros Hwrite Hsock Hdata. revert self Hsock.
  induction fuel as [|fuel IH]; intros self Hsock.
  - simpl. split; [reflexivity | lia].
  - destruct data as [|x rest]; [congruence|].
    rewrite sendall_step.
    destruct (send_on_good_socket self (x :: rest) 0 Hsock
                (or_intror (conj (Hwrite _ _) eq_refl)))
      as (self' & -> & Hon & Hr & Hs).
    assert (Hsock' : send_never_fails (_socket self')).
    { intros i. rewrite Hon. apply Hsock. }
    rewrite drop_0. destruct (IH self' Hsock') as [Hrun Hcount].
    rewrite Hrun, Hcount, Hs. split; [reflexivity | lia].
Qed.
End SendallFacts.

Section LoopFacts.
Context {E : Type}.
Variable engine : SSLSessionContext E.

Import WrappedSocket.
Abbreviation buffer_do_handshake := _SecureTransportBuffer.do_handshake.
Abbreviation receive := _SecureTransportBuffer.receive_bytes_from_network.

(** Non-blocking mode, no receive made yet: a would-block signal can only
    come out after the one receive. *)
Lemma loop_signal_after_receive fuel (self self' : WrappedSocket.t E) (e : exn) :
  do_handshake_loop engine fuel false false self = (Some (Raise e), self') ->
  would_block_signal e ->
  socket.recv_calls (_socket self') = S (socket.recv_calls (_socket self)) /\
  exists sends,
    socket.log (_socket self')
    = socket.log (_socket self) ++ sends ++ [socket.Recv 8192] /\
    Forall is_send sends.
Proof.
  revert self. induction fuel as [|fuel IH]; intros self Hrun Hsig;
    [discriminate|].
  destruct (buffer_do_handshake_cases engine (_buffer self))
    as [Hc | [Hc | [Hc | [status Hc]]]].
  - rewrite loop_returns in Hrun by assumption. discriminate.
  - rewrite loop_want_read in Hrun by assumption. cbv zeta in Hrun.
    simpl negb in Hrun. rewrite andb_false_r in Hrun.
    destruct (socket_recv_cases (_socket self) 8192) as [[data Hr]|[oe Hr]];
      rewrite Hr in Hrun.
    + destruct fuel as [|fuel]; [discriminate|].
      rewrite loop_after_io in Hrun. injection Hrun as _ <-.
      cbn [_socket socket.recv_calls socket.log]. split; [reflexivity|].
      exists []. split; [reflexivity | constructor].
    + injection Hrun as <- _. destruct Hsig; discriminate.
  - rewrite loop_want_write in Hrun by assumption. cbv zeta in Hrun.
    simpl negb in Hrun. rewrite andb_false_r in Hrun.
    destruct (send_some_cases
                (mk (_socket self) (buffer_do_handshake engine (_buffer self)).2))
      as [(k & w & Hs)|[oe Hs]]; cbn [_socket _buffer] in Hs;
      rewrite Hs in Hrun; cbv beta iota in Hrun.
    + destruct (IH _ Hrun Hsig) as (Hcount & sends & Hlog & Hsends).
      cbn [_socket socket.recv_calls socket.log] in Hcount, Hlog.
      split; [exact Hcount|].
      eexists (socket.Send _ :: sends). rewrite Hlog, <- app_assoc.
      split; [reflexivity|]. constructor; [exact I | assumption].
    + injection Hrun as <- _. destruct Hsig; discriminate.
  - rewrite loop_fatal with (status := status) in Hrun by assumption.
    injection Hrun as <- _. destruct Hsig; discriminate.
Qed.

(** X11: on a socket with a timeout (non-blocking or timeout-bound) a
    would-block signal never leaves [do_handshake] before a receive was
    attempted in that invocation: whenever the invocation ends with
    [WantReadError] or [WantWriteError], exactly one socket receive was
    made in it, as the last socket call, after sends only. The first
    would-block of the engine is thus always answered with socket I/O,
    also in non-blocking mode. *)
Theorem would_block_leaves_only_after_a_receive
    (fuel : nat) (self self' : WrappedSocket.t E) (e : exn) :
  socket.gettimeout (_socket self) <> None ->
  do_handshake engine fuel self = (Some (Raise e), self') ->
  e = WantReadError \/ e = WantWriteError ->
  socket.recv_calls (_socket self') = S (socket.recv_calls (_socket self)) /\
  exists sends,
    socket.log (_socket self')
    = socket.log (_socket self) ++ sends ++ [socket.Recv 8192] /\
    Forall is_send sends.
Proof.
  unfold do_handshake. intros Hmode.
  destruct (socket.gettimeout (_socket self)); [|congruence].
  apply loop_signal_after_receive.
Qed.
End LoopFacts.

Section StreamFacts.
Context {E : Type}.
Variable engine : SSLSessionContext E.

Import WrappedSocket.
Abbreviation buffer_do_handshake := _SecureTransportBuffer.do_handshake.
Abbreviation buffer_shutdown := _SecureTransportBuffer.shutdown.
Abbreviation buffer_read := _SecureTransportBuffer.read.
Abbreviation buffer_write := _SecureTransportBuffer.write.
Abbreviation receive := _SecureTransportBuffer.receive_bytes_from_network.

Lemma outbound_engine_step (s : socket.t) (b b' : _SecureTransportBuffer.t E) :
  staging_extends b b' -> outbound (mk s b) `prefix_of` outbound (mk s b').
Proof.
  intros (taken & written & _ & Hout). exists written.
  unfold outbound. cbn [_socket _buffer]. rewrite Hout, app_assoc. reflexivity.
Qed.

Lemma prefix_step (l1 l2 l3 : bytes) :
  l1 `prefix_of` l2 -> l2 `prefix_of` l3 -> l1 `prefix_of` l3.
Proof. intros [k1 ->] [k2 ->]. exists (k1 ++ k2). rewrite app_assoc. reflexivity. Qed.

Lemma prefix_same (l1 l2 : bytes) : l1 = l2 -> l1 `prefix_of` l2.
Proof. intros ->. exists []. rewrite app_nil_r. reflexivity. Qed.

Lemma loop_outbound fuel blocking done_io (self : WrappedSocket.t E) :
  outbound self
  `prefix_of` outbound (do_handshake_loop engine fuel blocking done_io self).2.
Proof.
  revert done_io self. induction fuel as [|fuel IH]; intros done_io self.
  { apply prefix_same. reflexivity. }
  assert (Hstep : outbound self `prefix_of`
                  outbound (mk (_socket self)
                              (buffer_do_handshake engine (_buffer self)).2)).
  { destruct self as [s b]. apply outbound_engine_step.
    apply do_handshake_extends. }
  destruct (buffer_do_handshake_cases engine (_buffer self))
    as [Hc | [Hc | [Hc | [status Hc]]]].
  - rewrite loop_returns by assumption. exact Hstep.
  - rewrite loop_want_read by assumption. cbv zeta.
    destruct (negb blocking && done_io); [exact Hstep|].
    destruct (socket_recv_cases (_socket self) 8192) as [[data Hr]|[e Hr]];
      rewrite Hr.
    + eapply prefix_step; [exact Hstep|].
      eapply prefix_step; [|apply IH]. apply prefix_same. reflexivity.
    + exact Hstep.
  - rewrite loop_want_write by assumption. cbv zeta.
    destruct (negb blocking && done_io); [exact Hstep|].
    pose proof (send_some_outbound
                  (mk (_socket self) (buffer_do_handshake engine (_buffer self)).2))
      as Hflush.
    destruct (send_some
                (mk (_socket self) (buffer_do_handshake engine (_buffer self)).2))
      as [[k|e] self1]; cbn [snd] in Hflush.
    + eapply prefix_step; [exact Hstep|]. rewrite <- Hflush. apply IH.
    + cbn [snd]. rewrite Hflush. exact Hstep.
  - rewrite loop_fatal with (status := status) by assumption. exact Hstep.
Qed.

Lemma drain_outbound fuel (self : WrappedSocket.t E) :
  outbound (drain fuel self).2 = outbound self.
Proof.
  revert self. induction fuel as [|fuel IH]; intros self; [reflexivity|].
  rewrite drain_step.
  destruct (_SecureTransportBuffer.peek_bytes (_buffer self) 8192);
    [reflexivity|].
  pose proof (send_some_outbound self) as Hflush.
  destruct (send_some self) as [[k|e] self1]; cbn [snd] in *.
  - rewrite IH. exact Hflush.
  - exact Hflush.
Qed.

Lemma unwrap_outbound fuel (self : WrappedSocket.t E) :
  outbound self `prefix_of` outbound (unwrap engine fuel self).2.
Proof.
  unfold unwrap.
  assert (Hstep : outbound self `prefix_of`
                  outbound (mk (_socket self)
                              (buffer_shutdown engine (_buffer self)).2)).
  { destruct self as [s b]. apply outbound_engine_step. apply shutdown_extends. }
  destruct (buffer_shutdown engine (_buffer self)) as [[u|e] b]; cbn [snd] in *;
    [|exact Hstep].
  pose proof (drain_outbound fuel (mk (_socket self) b)) as Hdrain.
  destruct (drain fuel (mk (_socket self) b)) as [[[u'|e]|] self1];
    cbn [snd] in *; rewrite Hdrain; exact Hstep.
Qed.

Lemma close_outbound fuel (self : WrappedSocket.t E) :
  outbound self `prefix_of` outbound (close engine fuel self).2.
Proof.
  unfold close. pose proof (unwrap_outbound fuel self) as H.
  destruct (unwrap engine fuel self) as [[[s|e]|] self1]; exact H.
Qed.

Lemma recv_outbound (self : WrappedSocket.t E) (bufsize : nat) :
  outbound self `prefix_of` outbound (recv engine self bufsize).2.
Proof.
  assert (Hstep : outbound self `prefix_of`
                  outbound (mk (_socket self)
                              (buffer_read engine (_buffer self) (Some bufsize)).2)).
  { destruct self as [s b]. apply outbound_engine_step. apply read_extends. }
  destruct (buffer_read_cases engine (_buffer self) bufsize)
    as [[data H] | [H | [status H]]].
  - rewrite recv_without_io by (rewrite H; discriminate). exact Hstep.
  - rewrite recv_with_io by assumption. cbv zeta.
    destruct (socket_recv_cases (_socket self) 8192) as [[data Hr]|[e Hr]];
      rewrite Hr; [|exact Hstep].
    destruct data as [|x data]; [exact Hstep|].
    eapply prefix_step; [exact Hstep|]. cbn [snd].
    match goal with
    | |- _ `prefix_of` outbound (mk ?s (buffer_read engine ?b ?amt).2) =>
        eapply prefix_step;
          [|apply (outbound_engine_step s b), read_extends]
    end.
    apply prefix_same. reflexivity.
  - rewrite recv_without_io by (rewrite H; discriminate). exact Hstep.
Qed.

Lemma send_outbound (self : WrappedSocket.t E) (data : bytes) :
  outbound self `prefix_of` outbound (send engine self data).2.
Proof.
  assert (Hstep : outbound self `prefix_of`
                  outbound (mk (_socket self)
                              (buffer_write engine (_buffer self) data).2)).
  { destruct self as [s b]. apply outbound_engine_step. apply write_extends. }
  destruct (send_after_write engine self data) as (Hret & Hwb & Hfatal).
  pose proof (send_some_outbound
                (mk (_socket self) (buffer_write engine (_buffer self) data).2))
    as Hflush.
  destruct (buffer_write_cases engine (_buffer self) data)
    as [[n H] | [H | [status H]]].
  - rewrite (Hret n H).
    destruct (send_some _) as [[k|e] self1]; cbn [snd] in *;
      rewrite Hflush; exact Hstep.
  - rewrite (Hwb H).
    destruct (send_some _) as [[k|e] self1]; cbn [snd] in *;
      rewrite Hflush; exact Hstep.
  - rewrite (Hfatal status H). exact Hstep.
Qed.

Lemma sendall_outbound fuel (self : WrappedSocket.t E) (data : bytes) :
  outbound self `prefix_of` outbound (sendall engine fuel self data).2.
Proof.
  revert self data. induction fuel as [|fuel IH]; intros self data.
  { apply prefix_same. reflexivity. }
  destruct data as [|x rest]; [apply prefix_same; reflexivity|].
  rewrite sendall_step.
  pose proof (send_outbound self (x :: rest)) as Hsend.
  destruct (send engine self (x :: rest)) as [[sent|e] self1]; cbn [snd] in *.
  - eapply prefix_step; [exact Hsend | apply IH].
  - exact Hsend.
Qed.

(** X12: no operation of the socket-shaped wrapper loses, duplicates or
    reorders ciphertext on its way to the peer. For [do_handshake],
    [unwrap], [close], [recv], [send] and [sendall], on any engine and any
    socket, whatever the outcome (success, exception, or still running),
    the bytes on the wire followed by the bytes staged in egress before
    the call are a prefix of the same sequence after the call. *)
Theorem outbound_stream_only_grows (self : WrappedSocket.t E) :
  (forall fuel,
     outbound self `prefix_of` outbound (do_handshake engine fuel self).2) /\
  (forall fuel,
     outbound self `prefix_of` outbound (unwrap engine fuel self).2) /\
  (forall fuel,
     outbound self `prefix_of` outbound (close engine fuel self).2) /\
  (forall bufsize,
     outbound self `prefix_of` outbound (recv engine self bufsize).2) /\
  (forall data,
     outbound self `prefix_of` outbound (send engine self data).2) /\
  (forall fuel data,
     outbound self `prefix_of` outbound (sendall engine fuel self data).2).
Proof.
  split; [intros fuel; apply loop_outbound|].
  split; [intros fuel; apply unwrap_outbound|].
  split; [intros fuel; apply close_outbound|].
  split; [intros bufsize; apply recv_outbound|].
  split; [intros data; apply send_outbound|].
  intros fuel data. apply sendall_outbound.
Qed.
End StreamFacts.

(** Witnesses: the hypotheses of the statements above hold on the small
    engine. *)

Lemma do_handshake_blocking_resolves_would_block_witness :
  let self := Demo.blocking_two_bytes in
  let run := WrappedSocket.do_handshake Demo.engine 4 self in
  socket.gettimeout (WrappedSocket._socket self) = None /\
  run.1 = Some (Return tt) /\
  socket.recv_calls (WrappedSocket._socket run.2) = 3%nat /\
  @Return unit tt <> Raise WantReadError /\
  @Return unit tt <> Raise WantWriteError.
Proof.
  cbv zeta.
  assert (Hrun : WrappedSocket.do_handshake Demo.engine 4 Demo.blocking_two_bytes
                 = (Some (Return tt),
                    (WrappedSocket.do_handshake Demo.engine 4
                       Demo.blocking_two_bytes).2))
    by (vm_compute; reflexivity).
  split; [reflexivity|]. split; [rewrite Hrun; reflexivity|].
  split; [vm_compute; reflexivity|].
  exact (do_handshake_blocking_resolves_would_block Demo.engine 4
           Demo.blocking_two_bytes _ (Return tt) eq_refl Hrun).
Defined.

Lemma recv_returns_empty_at_end_of_stream_witness :
  let run := WrappedSocket.recv Demo.engine Demo.blocking_at_eof 5 in
  run.1 = Return [] /\
  socket.recv_calls (WrappedSocket._socket run.2) = 1%nat.
Proof.
  cbv zeta.
  destruct (recv_returns_empty_at_end_of_stream Demo.engine
              Demo.blocking_at_eof 5 eq_refl eq_refl)
    as (Hout & _ & Hcalls & _).
  split; [exact Hout | exact Hcalls].
Defined.

Lemma demo_write_takes_everything
    (b : _SecureTransportBuffer.t Demo.session) (buf : bytes) :
  buf <> [] ->
  exists n, (_SecureTransportBuffer.write Demo.engine b buf).1 = Return (S n).
Proof.
  destruct buf as [|x buf]; [congruence|].
  intros _. exists (length buf). reflexivity.
Defined.

Lemma sendall_completes_witness :
  let data := [x17; x03; x03; x00; x01; x2a] in
  let run := WrappedSocket.sendall Demo.engine 7 Demo.blocking_idle data in
  run.1 = Some (Return tt) /\
  socket.recv_calls (WrappedSocket._socket run.2) = 0%nat /\
  (socket.send_calls (WrappedSocket._socket run.2) <= 6)%nat.
Proof.
  cbv zeta.
  assert (Hsock : send_never_fails (WrappedSocket._socket Demo.blocking_idle))
    by (intros i; exists 4%nat; reflexivity).
  assert (Hlen : (length [x17; x03; x03; x00; x01; x2a] < 7)%nat)
    by (simpl; lia).
  destruct (sendall_completes Demo.engine 7 Demo.blocking_idle
              [x17; x03; x03; x00; x01; x2a]
              demo_write_takes_everything Hsock Hlen)
    as (Hrun & Hrecv & Hsend & _).
  split; [exact Hrun|]. split; [exact Hrecv | exact Hsend].
Defined.

Lemma sendall_spins_when_write_would_block_witness :
  let run :=
    WrappedSocket.sendall Demo.stalled_engine 3 Demo.blocking_idle [x17] in
  run.1 = None /\
  socket.send_calls (WrappedSocket._socket run.2) = 3%nat.
Proof.
  cbv zeta.
  assert (Hsock : send_never_fails (WrappedSocket._socket Demo.blocking_idle))
    by (intros i; exists 4%nat; reflexivity).
  assert (Hdata : [x17] <> @nil byte) by discriminate.
  exact (sendall_spins_when_write_would_block Demo.stalled_engine 3
           Demo.blocking_idle [x17] (fun b buf => eq_refl) Hsock Hdata).
Defined.

Lemma would_block_leaves_only_after_a_receive_witness :
  let self := Demo.nonblocking_two_bytes in
  let run := WrappedSocket.do_handshake Demo.engine 2 self in
  run.1 = Some (Raise WantReadError) /\
  socket.recv_calls (WrappedSocket._socket run.2) = 1%nat.
Proof.
  cbv zeta.
  assert (Hmode : socket.gettimeout
                    (WrappedSocket._socket Demo.nonblocking_two_bytes) <> None)
    by discriminate.
  assert (Hrun : WrappedSocket.do_handshake Demo.engine 2
                   Demo.nonblocking_two_bytes
                 = (Some (Raise WantReadError),
                    (WrappedSocket.do_handshake Demo.engine 2
                       Demo.nonblocking_two_bytes).2))
    by (vm_compute; reflexivity).
  destruct (would_block_leaves_only_after_a_receive Demo.engine 2
              Demo.nonblocking_two_bytes _ WantReadError Hmode Hrun
              (or_introl eq_refl)) as [Hcalls _].
  split; [rewrite Hrun; reflexivity | exact Hcalls].
Defined.

Section OutcomeFacts.
Context {E : Type}.
Variable engine : SSLSessionContext E.

Import WrappedSocket.
Abbreviation buffer_do_handshake := _SecureTransportBuffer.do_handshake.



End OutcomeFacts.


Section InboundFacts.
Context {E : Type}.
Variable engine : SSLSessionContext E.

Import WrappedSocket.
Abbreviation buffer_do_handshake := _SecureTransportBuffer.do_handshake.
Abbreviation buffer_read := _SecureTransportBuffer.read.
Abbreviation receive := _SecureTransportBuffer.receive_bytes_from_network.
Abbreviation ingress_of := _SecureTransportBuffer._receive_buffer.

Lemma socket_recv_delivered (s : socket.t) :
  socket.recv_calls (socket.recv s 8192).2 = S (socket.recv_calls s) /\
  socket.on_recv (socket.recv s 8192).2 = socket.on_recv s /\
  ((socket.recv s 8192).1 = Return (delivered s (socket.recv_calls s)) \/
   ((exists e, (socket.recv s 8192).1 = Raise (OSError e)) /\
    delivered s (socket.recv_calls s) = [])).
Proof.
  unfold socket.recv, delivered.
  destruct (socket.on_recv s (socket.recv_calls s));
    cbn [fst snd socket.recv_calls socket.on_recv]; eauto 6.
Qed.

Lemma delivered_same_oracle (s s1 : socket.t) (i : nat) :
  socket.on_recv s1 = socket.on_recv s -> delivered s1 i = delivered s i.
Proof. unfold delivered. intros ->. reflexivity. Qed.

Lemma received_since_nothing (s s' : socket.t) :
  socket.recv_calls s' = socket.recv_calls s -> received_since s s' = [].
Proof.
  unfold received_since. intros ->. rewrite Nat.sub_diag. reflexivity.
Qed.

Lemma received_since_same_start (s s1 s' : socket.t) :
  socket.on_recv s1 = socket.on_recv s ->
  socket.recv_calls s1 = socket.recv_calls s ->
  received_since s s' = received_since s1 s'.
Proof.
  unfold received_since. intros Hon ->. f_equal.
  apply map_ext. intros i. symmetry. apply delivered_same_oracle. exact Hon.
Qed.

Lemma received_since_one_more (s s1 s' : socket.t) :
  socket.on_recv s1 = socket.on_recv s ->
  socket.recv_calls s1 = S (socket.recv_calls s) ->
  (socket.recv_calls s1 <= socket.recv_calls s')%nat ->
  received_since s s'
  = delivered s (socket.recv_calls s) ++ received_since s1 s'.
Proof.
  unfold received_since. intros Hon Hcalls Hle.
  replace (socket.recv_calls s' - socket.recv_calls s)%nat
    with (S (socket.recv_calls s' - socket.recv_calls s1)) by lia.
  rewrite Hcalls. cbn [seq map concat]. f_equal. f_equal.
  apply map_ext. intros i. symmetry. apply delivered_same_oracle. exact Hon.
Qed.

Lemma send_some_socket {F} (self : WrappedSocket.t F) :
  socket.on_recv (_socket (send_some self).2) = socket.on_recv (_socket self) /\
  socket.recv_calls (_socket (send_some self).2)
  = socket.recv_calls (_socket self).
Proof.
  destruct (send_some_cases self) as [(k & w & ->)|[e ->]]; auto.
Qed.

(** *** The recording engine behaves as the engine it records *)

Lemma run_callbacks_record {A} (call : EngineCall (Z * A * E)) (log : bytes)
    (b : _SecureTransportBuffer.t (E * bytes)) :
  (_SecureTransportBuffer.run_callbacks (record call log) b).1.1
  = (_SecureTransportBuffer.run_callbacks call (forget_buffer b)).1.1 /\
  (_SecureTransportBuffer.run_callbacks (record call log) b).1.2.1
  = (_SecureTransportBuffer.run_callbacks call (forget_buffer b)).1.2 /\
  forget_buffer (_SecureTransportBuffer.run_callbacks (record call log) b).2
  = (_SecureTransportBuffer.run_callbacks call (forget_buffer b)).2 /\
  exists taken : bytes,
    (_SecureTransportBuffer.run_callbacks (record call log) b).1.2.2
    = log ++ taken /\
    ingress_of b
    = taken
      ++ ingress_of (_SecureTransportBuffer.run_callbacks (record call log) b).2.
Proof.
  revert log b. induction call as [r | to_read k IH | data k IH]; intros log b.
  - simpl. repeat split. exists []. rewrite app_nil_r. auto.
  - cbn [record _SecureTransportBuffer.run_callbacks].
    rewrite !read_func_eq. cbv beta iota.
    cbn [forget_buffer _SecureTransportBuffer._receive_buffer
         _SecureTransportBuffer._send_buffer _SecureTransportBuffer._st_context].
    match goal with
    | |- context [_SecureTransportBuffer.run_callbacks (record (k ?ans) ?l) ?b1] =>
        destruct (IH ans l b1) as (H1 & H2 & H3 & taken & H4 & H5)
    end.
    cbn [forget_buffer _SecureTransportBuffer._receive_buffer
         _SecureTransportBuffer._send_buffer _SecureTransportBuffer._st_context
         snd] in *.
    split; [exact H1|]. split; [exact H2|]. split; [exact H3|].
    exists (take to_read (ingress_of b) ++ taken).
    rewrite H4, <- !app_assoc, <- H5, take_drop. auto.
  - cbn [record _SecureTransportBuffer.run_callbacks].
    unfold _SecureTransportBuffer._write_func. cbv beta iota zeta.
    cbn [forget_buffer _SecureTransportBuffer._receive_buffer
         _SecureTransportBuffer._send_buffer _SecureTransportBuffer._st_context].
    match goal with
    | |- context [_SecureTransportBuffer.run_callbacks (record (k ?ans) ?l) ?b1] =>
        destruct (IH ans l b1) as (H1 & H2 & H3 & taken & H4 & H5)
    end.
    cbn [forget_buffer _SecureTransportBuffer._receive_buffer
         _SecureTransportBuffer._send_buffer _SecureTransportBuffer._st_context]
      in *.
    split; [exact H1|]. split; [exact H2|]. split; [exact H3|].
    exists taken. auto.
Qed.

Lemma st_call_record {A} (op : E -> EngineCall (Z * A * E))
    (b : _SecureTransportBuffer.t (E * bytes)) :
  (_SecureTransportBuffer.st_call (fun s => record (op s.1) s.2) b).1
  = (_SecureTransportBuffer.st_call op (forget_buffer b)).1 /\
  forget_buffer (_SecureTransportBuffer.st_call (fun s => record (op s.1) s.2) b).2
  = (_SecureTransportBuffer.st_call op (forget_buffer b)).2 /\
  exists taken : bytes,
    (_SecureTransportBuffer._st_context
       (_SecureTransportBuffer.st_call (fun s => record (op s.1) s.2) b).2).2
    = (_SecureTransportBuffer._st_context b).2 ++ taken /\
    ingress_of b
    = taken
      ++ ingress_of
           (_SecureTransportBuffer.st_call (fun s => record (op s.1) s.2) b).2.
Proof.
  unfold _SecureTransportBuffer.st_call.
  change (_SecureTransportBuffer._st_context (forget_buffer b))
    with (_SecureTransportBuffer._st_context b).1.
  destruct (run_callbacks_record
              (op (_SecureTransportBuffer._st_context b).1)
              (_SecureTransportBuffer._st_context b).2 b)
    as (H1 & H2 & H3 & taken & H4 & H5).
  destruct (_SecureTransportBuffer.run_callbacks
              (record (op (_SecureTransportBuffer._st_context b).1)
                      (_SecureTransportBuffer._st_context b).2) b)
    as [[[status a] [session log]] b1].
  destruct (_SecureTransportBuffer.run_callbacks
              (op (_SecureTransportBuffer._st_context b).1) (forget_buffer b))
    as [[[status0 a0] session0] b0].
  cbn [fst snd] in *. injection H1 as -> ->. subst session0 b0 log.
  cbn [forget_buffer _SecureTransportBuffer._receive_buffer
       _SecureTransportBuffer._send_buffer _SecureTransportBuffer._st_context
       fst snd].
  split; [reflexivity|]. split; [reflexivity|]. exists taken. auto.
Qed.

Lemma do_handshake_record (b : _SecureTransportBuffer.t (E * bytes)) :
  (buffer_do_handshake (recording engine) b).1
  = (buffer_do_handshake engine (forget_buffer b)).1 /\
  forget_buffer (buffer_do_handshake (recording engine) b).2
  = (buffer_do_handshake engine (forget_buffer b)).2 /\
  exists taken : bytes,
    (_SecureTransportBuffer._st_context
       (buffer_do_handshake (recording engine) b).2).2
    = (_SecureTransportBuffer._st_context b).2 ++ taken /\
    ingress_of b
    = taken ++ ingress_of (buffer_do_handshake (recording engine) b).2.
Proof.
  unfold _SecureTransportBuffer.do_handshake.
  change (SSLHandshake (recording engine))
    with (fun s : E * bytes => record (SSLHandshake engine s.1) s.2).
  destruct (st_call_record (SSLHandshake engine) b) as (H1 & H2 & Htaken).
  destruct (_SecureTransportBuffer.st_call
              (fun s : E * bytes => record (SSLHandshake engine s.1) s.2) b)
    as [r b1].
  destruct (_SecureTransportBuffer.st_call (SSLHandshake engine) (forget_buffer b))
    as [r0 b0].
  cbn [fst snd] in *. subst r0 b0.
  destruct r as [u|e]; [|destruct e]; cbn [fst snd];
    (split; [reflexivity|]); (split; [reflexivity|]); exact Htaken.
Qed.

Lemma read_record (b : _SecureTransportBuffer.t (E * bytes)) (amt : nat) :
  (buffer_read (recording engine) b (Some amt)).1
  = (buffer_read engine (forget_buffer b) (Some amt)).1 /\
  forget_buffer (buffer_read (recording engine) b (Some amt)).2
  = (buffer_read engine (forget_buffer b) (Some amt)).2 /\
  exists taken : bytes,
    (_SecureTransportBuffer._st_context
       (buffer_read (recording engine) b (Some amt)).2).2
    = (_SecureTransportBuffer._st_context b).2 ++ taken /\
    ingress_of b
    = taken ++ ingress_of (buffer_read (recording engine) b (Some amt)).2.
Proof.
  unfold _SecureTransportBuffer.read, _SecureTransportBuffer.st_read.
  change (fun s : E * bytes => SSLRead (recording engine) s amt)
    with (fun s : E * bytes => record (SSLRead engine s.1 amt) s.2).
  destruct (st_call_record (fun s => SSLRead engine s amt) b)
    as (H1 & H2 & Htaken).
  destruct (_SecureTransportBuffer.st_call
              (fun s : E * bytes => record (SSLRead engine s.1 amt) s.2) b)
    as [r b1].
  destruct (_SecureTransportBuffer.st_call
              (fun s => SSLRead engine s amt) (forget_buffer b))
    as [r0 b0].
  cbn [fst snd] in *. subst r0 b0.
  destruct r as [u|e]; [|destruct e as [| | |status| |];
                          try destruct (status =? errSSLClosedGraceful)];
    cbn [fst snd];
    (split; [reflexivity|]); (split; [reflexivity|]); exact Htaken.
Qed.

Lemma send_some_forget (self : WrappedSocket.t (E * bytes)) :
  (send_some self).1 = (send_some (forget self)).1 /\
  forget (send_some self).2 = (send_some (forget self)).2 /\
  read_log (send_some self).2 = read_log self.
Proof.
  unfold send_some, socket.send.
  change (_socket (forget self)) with (_socket self).
  change (_SecureTransportBuffer.peek_bytes (_buffer (forget self)) 8192)
    with (_SecureTransportBuffer.peek_bytes (_buffer self) 8192).
  destruct (socket.on_send (_socket self) (socket.send_calls (_socket self)));
    repeat split.
Qed.

Lemma loop_forget fuel blocking done_io (self : WrappedSocket.t (E * bytes)) :
  (do_handshake_loop (recording engine) fuel blocking done_io self).1
  = (do_handshake_loop engine fuel blocking done_io (forget self)).1 /\
  forget (do_handshake_loop (recording engine) fuel blocking done_io self).2
  = (do_handshake_loop engine fuel blocking done_io (forget self)).2.
Proof.
  revert done_io self. induction fuel as [|fuel IH]; intros done_io self;
    [split; reflexivity|].
  cbn [do_handshake_loop].
  change (_buffer (forget self)) with (forget_buffer (_buffer self)).
  change (_socket (forget self)) with (_socket self).
  destruct (do_handshake_record (_buffer self)) as (H1 & H2 & _).
  destruct (buffer_do_handshake (recording engine) (_buffer self)) as [r b1].
  destruct (buffer_do_handshake engine (forget_buffer (_buffer self)))
    as [r0 b0].
  cbn [fst snd] in *. subst r0 b0.
  destruct r as [u|e]; [|destruct e]; try (split; reflexivity).
  - destruct (negb blocking && done_io); [split; reflexivity|].
    destruct (socket.recv (_socket self) 8192) as [[data|e] s1];
      [|split; reflexivity].
    exact (IH true (mk s1 (receive b1 data))).
  - destruct (negb blocking && done_io); [split; reflexivity|].
    destruct (send_some_forget (mk (_socket self) b1)) as (Hs1 & Hs2 & _).
    change (forget (mk (_socket self) b1))
      with (mk (_socket self) (forget_buffer b1)) in *.
    destruct (send_some (mk (_socket self) b1)) as [rs x1].
    destruct (send_some (mk (_socket self) (forget_buffer b1))) as [rs0 x0].
    cbn [fst snd] in *. subst rs0 x0.
    destruct rs as [k|e]; [apply IH | split; reflexivity].
Qed.

Lemma recv_forget (self : WrappedSocket.t (E * bytes)) (bufsize : nat) :
  (recv (recording engine) self bufsize).1
  = (recv engine (forget self) bufsize).1 /\
  forget (recv (recording engine) self bufsize).2
  = (recv engine (forget self) bufsize).2.
Proof.
  unfold recv.
  change (_buffer (forget self)) with (forget_buffer (_buffer self)).
  change (_socket (forget self)) with (_socket self).
  destruct (read_record (_buffer self) bufsize) as (H1 & H2 & _).
  destruct (buffer_read (recording engine) (_buffer self) (Some bufsize))
    as [r b1].
  destruct (buffer_read engine (forget_buffer (_buffer self)) (Some bufsize))
    as [r0 b0].
  cbn [fst snd] in *. subst r0 b0.
  destruct r as [u|e]; [|destruct e]; try (split; reflexivity).
  destruct (socket.recv (_socket self) 8192) as [[[|x data]|e] s1];
    try (split; reflexivity).
  destruct (read_record (receive b1 (x :: data)) bufsize) as (H3 & H4 & _).
  change (forget_buffer (receive b1 (x :: data)))
    with (receive (forget_buffer b1) (x :: data)) in *.
  destruct (buffer_read (recording engine) (receive b1 (x :: data))
              (Some bufsize)) as [r2 b2].
  destruct (buffer_read engine (receive (forget_buffer b1) (x :: data))
              (Some bufsize)) as [r3 b3].
  cbn [fst snd] in *. subst r3 b3. split; reflexivity.
Qed.

(** *** The invariant on the inbound side *)

Lemma loop_inbound fuel blocking done_io (self : WrappedSocket.t (E * bytes)) :
  socket.on_recv
    (_socket (do_handshake_loop (recording engine) fuel blocking done_io self).2)
  = socket.on_recv (_socket self) /\
  (socket.recv_calls (_socket self)
   <= socket.recv_calls
        (_socket
           (do_handshake_loop (recording engine) fuel blocking done_io self).2))%nat /\
  inbound_conserved self
    (do_handshake_loop (recording engine) fuel blocking done_io self).2.
Proof.
  unfold inbound_conserved, read_log.
  revert done_io self. induction fuel as [|fuel IH]; intros done_io self.
  { cbn [do_handshake_loop snd]. split; [reflexivity|]. split; [lia|].
    exists []. rewrite received_since_nothing by reflexivity.
    rewrite !app_nil_r. auto. }
  destruct (do_handshake_record (_buffer self))
    as (_ & _ & taken0 & Hlog & Hin).
  assert (Hstop :
    socket.on_recv (_socket self) = socket.on_recv (_socket self) /\
    (socket.recv_calls (_socket self) <= socket.recv_calls (_socket self))%nat /\
    exists taken : bytes,
      (_SecureTransportBuffer._st_context
         (buffer_do_handshake (recording engine) (_buffer self)).2).2
      = (_SecureTransportBuffer._st_context (_buffer self)).2 ++ taken /\
      ingress_of (_buffer self) ++ received_since (_socket self) (_socket self)
      = taken
        ++ ingress_of (buffer_do_handshake (recording engine) (_buffer self)).2).
  { split; [reflexivity|]. split; [lia|]. exists taken0.
    rewrite received_since_nothing by reflexivity.
    rewrite app_nil_r. auto. }
  destruct (buffer_do_handshake_cases (recording engine) (_buffer self))
    as [Hc | [Hc | [Hc | [status Hc]]]].
  - rewrite loop_returns by assumption. exact Hstop.
  - rewrite loop_want_read by assumption. cbv zeta.
    destruct (negb blocking && done_io); [exact Hstop|].
    destruct (socket_recv_delivered (_socket self)) as (Hcalls & Hon & Hdata).
    destruct (socket.recv (_socket self) 8192) as [[data|e] s1];
      cbn [fst snd] in *.
    + destruct Hdata as [[= ->] | [[e He] _]]; [|discriminate].
      match goal with
      | |- context [do_handshake_loop (recording engine) fuel blocking true ?x] =>
          destruct (IH true x) as (Hon' & Hle' & taken1 & Hlog' & Hin')
      end.
      cbn [_socket _buffer receive ingress_of
           _SecureTransportBuffer._receive_buffer
           _SecureTransportBuffer._st_context] in Hon', Hle', Hlog', Hin'.
      split; [congruence|]. split; [lia|].
      exists (taken0 ++ taken1). split.
      * rewrite Hlog', Hlog, app_assoc. reflexivity.
      * rewrite (received_since_one_more (_socket self) s1) by assumption.
        rewrite Hin, <- !app_assoc. f_equal. rewrite <- Hin'.
        rewrite <- app_assoc. reflexivity.
    + cbn [_socket _buffer]. split; [exact Hon|]. split; [lia|].
      exists taken0. split; [exact Hlog|].
      rewrite (received_since_one_more (_socket self) s1) by (auto; lia).
      destruct Hdata as [[=] | [_ ->]].
      rewrite received_since_nothing by reflexivity.
      rewrite app_nil_r. exact Hin.
  - rewrite loop_want_write by assumption. cbv zeta.
    destruct (negb blocking && done_io); [exact Hstop|].
    pose proof (send_some_socket
                  (mk (_socket self)
                      (buffer_do_handshake (recording engine) (_buffer self)).2))
      as [Hon Hcalls].
    pose proof (send_some_ingress
                  (mk (_socket self)
                      (buffer_do_handshake (recording engine) (_buffer self)).2))
      as Hsame.
    destruct (send_some_forget
                (mk (_socket self)
                    (buffer_do_handshake (recording engine) (_buffer self)).2))
      as (_ & _ & Hkeep).
    unfold read_log in Hkeep.
    destruct (send_some
                (mk (_socket self)
                    (buffer_do_handshake (recording engine) (_buffer self)).2))
      as [[k|e] self1]; cbn [fst snd _socket _buffer] in *.
    + destruct (IH done_io self1) as (Hon' & Hle' & taken1 & Hlog' & Hin').
      split; [congruence|]. split; [lia|].
      exists (taken0 ++ taken1). split.
      * rewrite Hlog', Hkeep, Hlog, app_assoc. reflexivity.
      * rewrite (received_since_same_start (_socket self) (_socket self1))
          by assumption.
        rewrite Hin, <- !app_assoc. f_equal. rewrite <- Hin', Hsame.
        reflexivity.
    + split; [exact Hon|]. split; [lia|]. exists taken0.
      split; [rewrite Hkeep; exact Hlog|].
      rewrite received_since_nothing by assumption.
      rewrite app_nil_r, Hsame. exact Hin.
  - rewrite loop_fatal with (status := status) by assumption. exact Hstop.
Qed.

Lemma recv_inbound (self : WrappedSocket.t (E * bytes)) (bufsize : nat) :
  inbound_conserved self (recv (recording engine) self bufsize).2.
Proof.
  unfold inbound_conserved, read_log.
  destruct (read_record (_buffer self) bufsize)
    as (_ & _ & taken0 & Hlog & Hin).
  assert (Hstop :
    exists taken : bytes,
      (_SecureTransportBuffer._st_context
         (buffer_read (recording engine) (_buffer self) (Some bufsize)).2).2
      = (_SecureTransportBuffer._st_context (_buffer self)).2 ++ taken /\
      ingress_of (_buffer self) ++ received_since (_socket self) (_socket self)
      = taken
        ++ ingress_of
             (buffer_read (recording engine) (_buffer self) (Some bufsize)).2).
  { exists taken0. rewrite received_since_nothing by reflexivity.
    rewrite app_nil_r. auto. }
  destruct (buffer_read_cases (recording engine) (_buffer self) bufsize)
    as [[data H] | [H | [status H]]].
  - rewrite recv_without_io by (rewrite H; discriminate). exact Hstop.
  - rewrite recv_with_io by assumption. cbv zeta.
    destruct (socket_recv_delivered (_socket self)) as (Hcalls & Hon & Hdata).
    destruct (socket.recv (_socket self) 8192) as [[data|e] s1];
      cbn [fst snd] in *.
    + destruct Hdata as [[= Hdata] | [[e He] _]]; [|discriminate].
      rewrite (received_since_one_more (_socket self) s1)
        by (destruct data; cbn [snd _socket]; auto; lia).
      rewrite <- Hdata.
      destruct data as [|x data]; cbn [snd _socket _buffer].
      * exists taken0. rewrite received_since_nothing by reflexivity.
        rewrite !app_nil_r. auto.
      * destruct (read_record
                    (receive
                       (buffer_read (recording engine) (_buffer self)
                                    (Some bufsize)).2
                       (x :: data)) bufsize)
          as (_ & _ & taken1 & Hlog1 & Hin1).
        cbn [receive ingress_of _SecureTransportBuffer._receive_buffer
             _SecureTransportBuffer._st_context] in Hlog1, Hin1.
        exists (taken0 ++ taken1). split.
        -- rewrite Hlog1, Hlog, app_assoc. reflexivity.
        -- rewrite received_since_nothing by reflexivity.
           rewrite app_nil_r, Hin, <- !app_assoc. f_equal. exact Hin1.
    + cbn [_socket _buffer]. exists taken0. split; [exact Hlog|].
      rewrite (received_since_one_more (_socket self) s1) by (auto; lia).
      destruct Hdata as [[=] | [_ ->]].
      rewrite received_since_nothing by reflexivity.
      rewrite app_nil_r. exact Hin.
  - rewrite recv_without_io by (rewrite H; discriminate). exact Hstop.
Qed.

(** X14: no byte received from the socket is lost, duplicated or reordered
    on its way to the engine. The engine is made to remember, in its own
    session state, every byte its read callback handed to it
    ([recording]); this changes nothing else: the wrapper run on the
    recording engine returns the same result and, with the record erased
    ([forget]), reaches the same state as the wrapper run on the engine
    itself. Then, for [do_handshake] (any blocking mode) and for [recv],
    the bytes staged in ingress before the call followed by the bytes the
    socket delivered during the call are, in this order, the bytes the
    engine's read callback handed over during the call (the growth of the
    record) followed by the bytes staged in ingress after it. *)
Theorem inbound_stream_is_preserved (self : WrappedSocket.t (E * bytes)) :
  (forall fuel : nat,
     let run := do_handshake (recording engine) fuel self in
     run.1 = (do_handshake engine fuel (forget self)).1 /\
     forget run.2 = (do_handshake engine fuel (forget self)).2 /\
     inbound_conserved self run.2) /\
  (forall bufsize : nat,
     let run := recv (recording engine) self bufsize in
     run.1 = (recv engine (forget self) bufsize).1 /\
     forget run.2 = (recv engine (forget self) bufsize).2 /\
     inbound_conserved self run.2).
Proof.
  split.
  - intros fuel. cbv zeta. unfold do_handshake.
    change (_socket (forget self)) with (_socket self).
    destruct (loop_forget fuel
                match socket.gettimeout (_socket self) with
                | Some _ => false
                | None => true
                end false self) as [H1 H2].
    split; [exact H1|]. split; [exact H2|]. apply loop_inbound.
  - intros bufsize. cbv zeta.
    destruct (recv_forget self bufsize) as [H1 H2].
    split; [exact H1|]. split; [exact H2|]. apply recv_inbound.
Qed.

End InboundFacts.

(** The record at work: on a blocking socket whose [recv] delivers two
    bytes, [recv] hands both to the engine; the record, empty before the
    call, holds them after it, and ingress is empty again. *)
Example recv_records_what_the_engine_took :
  let self :=
    WrappedSocket.mk
      (socket.fresh None (Demo.delivers [x17; x03]) (Demo.accepts 8192))
      (_SecureTransportBuffer.__init__ (Demo.mkSession true [], [])) in
  let run := WrappedSocket.recv (recording Demo.engine) self 5 in
  forget self = Demo.blocking_two_bytes /\
  read_log self = [] /\
  received_since (WrappedSocket._socket self) (WrappedSocket._socket run.2)
    = [x17; x03] /\
  read_log run.2 = [x17; x03] /\
  _SecureTransportBuffer._receive_buffer (WrappedSocket._buffer run.2) = [].
Proof. cbv zeta. repeat split; vm_compute; reflexivity. Qed.
